(** * satsense.generators: windowed access to a raster image

    A shallow embedding of [src/satsense/generators.py]: the base
    [Generator], the [RandomSampleGenerator] and the [FullGenerator], with
    the properties of padding, block ranges, slices, iteration and
    splitting that the specification states about them.

    Modelling conventions.
    - Python integers are [Z].
    - Python floats are IEEE 754 doubles.  The code meets them through a
      [PyFloat]: the operations the source applies to floats (conversion
      of an integer operand, [+], [*], [/] on integers, [math.floor],
      [math.ceil]) with the overflow of each; [binary64] implements them
      by value, rounding to nearest with ties to even.  What is proved of
      the code rests on [PyFloatLaws] alone, which holds of [binary64]:
      the exactness of doubles on integers and half-integers of at most
      53 bits and the relative error of a rounded quotient.  Statements
      that need an exact float result carry the bound on the operands as
      a hypothesis.
    - A raised exception is a value of [PyError]; a method that can raise
      returns a [Result].
    - A Python generator function is modelled by its [Trace]: the items it
      yields, in order, and the exception that ended it, if any.
    - Attribute mutation is explicit state passing on the [Generator]
      record. *)

From Stdlib Require Import ZArith QArith Qround Qabs List Lia Lqa Bool String.
From Stdlib Require Import Permutation Sorted.
Import ListNotations.
Open Scope Z_scope.

(** ** Exceptions and results *)

Inductive PyError : Type :=
| RuntimeError (msg : string)
| TypeError
| ValueError
| KeyError
| IndexError
| ZeroDivisionError
| OverflowError.

Inductive Result (A : Type) : Type :=
| Ok (a : A)
| Raise (e : PyError).
Arguments Ok {A} a.
Arguments Raise {A} e.

Definition bind {A B} (r : Result A) (k : A -> Result B) : Result B :=
  match r with
  | Ok a => k a
  | Raise e => Raise e
  end.

Notation "x <- r ;; k" := (bind r (fun x => k))
  (at level 61, r at next level, right associativity).

(** The items a generator function yields and the exception that stopped
    it ([None]: the generator returned normally). *)
Definition Trace (A : Type) : Type := (list A * option PyError)%type.

Definition finished {A} : Trace A := ([], None).
Definition yield {A} (a : A) : Trace A := ([a], None).
Definition raising {A} (e : PyError) : Trace A := ([], Some e).

(** Sequencing of two pieces of a generator body. *)
Definition then_ {A} (t : Trace A) (k : Trace A) : Trace A :=
  match t with
  | (ys, Some e) => (ys, Some e)
  | (ys, None) => (ys ++ fst k, snd k)
  end.

(** [for x in xs: body x] inside a generator function. *)
Fixpoint for_each {X A} (xs : list X) (body : X -> Trace A) : Trace A :=
  match xs with
  | [] => finished
  | x :: xs' => then_ (body x) (for_each xs' body)
  end.

(** ** Python floats *)

(** The floats of the interpreter, through the operations this module
    applies to them.  [None] is the overflow of an operation: an integer
    too large to convert ([float_of_int]), a quotient of integers beyond
    the largest double ([float_div_int], for a non-zero divisor), the
    floor or ceiling of an infinity.  [float_add] and [float_mul] do not
    raise: they overflow to an infinity.  [float_value] is the number a
    finite float stands for. *)
Record PyFloat : Type := mk_PyFloat {
  float : Type;
  float_of_int : Z -> option float;
  float_half : float;
  float_add : float -> float -> float;
  float_mul : float -> float -> float;
  float_div_int : Z -> Z -> option float;
  float_floor : float -> option Z;
  float_ceil : float -> option Z;
  float_value : float -> option Q
}.

(** An integer of at most 53 bits: doubles hold it exactly. *)
Definition double_exact (z : Z) : Prop := Z.abs z <= 2 ^ 53.

(** Numbers that doubles hold exactly, as far as this module meets them:
    the integers and the half-integers of at most 53 bits. *)
Definition representable (q : Q) : Prop :=
  exists m : Z, double_exact m /\ (q == inject_Z m \/ q == inject_Z m / 2)%Q.

(** What IEEE arithmetic in round-to-nearest guarantees of these
    operations: a representable result is exact, and the quotient of two
    integers of at most 53 bits is rounded with a relative error of at
    most 2^-53. *)
Record PyFloatLaws (FP : PyFloat) : Prop := mk_PyFloatLaws {
  value_half :
    exists q, float_value FP (float_half FP) = Some q /\ (q == 1 # 2)%Q;
  of_int_exact : forall z,
    double_exact z ->
    exists f q, float_of_int FP z = Some f
                /\ float_value FP f = Some q /\ (q == inject_Z z)%Q;
  add_exact : forall a b x y,
    float_value FP a = Some x -> float_value FP b = Some y ->
    representable (x + y) ->
    exists q, float_value FP (float_add FP a b) = Some q /\ (q == x + y)%Q;
  mul_exact : forall a b x y,
    float_value FP a = Some x -> float_value FP b = Some y ->
    representable (x * y) ->
    exists q, float_value FP (float_mul FP a b) = Some q /\ (q == x * y)%Q;
  floor_exact : forall f q,
    float_value FP f = Some q -> float_floor FP f = Some (Qfloor q);
  ceil_exact : forall f q,
    float_value FP f = Some q -> float_ceil FP f = Some (Qceiling q);
  div_int_rounded : forall a b,
    b <> 0 -> double_exact a -> double_exact b ->
    exists f q,
      float_div_int FP a b = Some f /\ float_value FP f = Some q
      /\ (representable (inject_Z a / inject_Z b) ->
          (q == inject_Z a / inject_Z b)%Q)
      /\ (Qabs (q - inject_Z a / inject_Z b) * inject_Z (2 ^ 53)
          <= Qabs (inject_Z a / inject_Z b))%Q
}.

(** The exception of an overflowing operation. *)
Definition overflow {A} (o : option A) : Result A :=
  match o with
  | Some a => Ok a
  | None => Raise OverflowError
  end.

(** [math.floor(.5 * w)] for an integer [w] *)
Definition floor_half_of (FP : PyFloat) (w : Z) : Result Z :=
  w' <- overflow (float_of_int FP w) ;;
  overflow (float_floor FP (float_mul FP (float_half FP) w')).

(** [math.floor((i + .5) * s)] for integers [i] and [s] *)
Definition floor_cell_centre (FP : PyFloat) (i s : Z) : Result Z :=
  i' <- overflow (float_of_int FP i) ;;
  s' <- overflow (float_of_int FP s) ;;
  overflow (float_floor FP
              (float_mul FP (float_add FP i' (float_half FP)) s')).

(** [math.ceil(a / b)] for integers [a] and [b] *)
Definition ceil_truediv (FP : PyFloat) (a b : Z) : Result Z :=
  if b =? 0 then Raise ZeroDivisionError
  else q <- overflow (float_div_int FP a b) ;; overflow (float_ceil FP q).

(** ** IEEE 754 doubles *)

(** [2^e <= n / d], for positive [n] and [d]. *)
Definition pow2_le (e n d : Z) : bool :=
  d * 2 ^ Z.max 0 e <=? n * 2 ^ Z.max 0 (- e).

(** The binary exponent of [n / d]: the floor of its logarithm. *)
Definition ilog2 (n d : Z) : Z :=
  let e := Z.log2 n - Z.log2 d in
  if pow2_le e n d then e else e - 1.

(** The integer nearest to [n / d], the even one of two equally near. *)
Definition rne (n d : Z) : Z :=
  let f := n / d in
  let r := n mod d in
  if 2 * r <? d then f
  else if d <? 2 * r then f + 1
  else if Z.even f then f else f + 1.

(** A number rounded to 53 significant bits, as a mantissa [m] and the
    exponent [k] of its last place: the number is rounded to [m * 2^k].
    Below [2^-1022] the last place stays at [2^-1074] (subnormals). *)
Definition round_nearest (q : Q) : Z * Z :=
  let n := Qnum q in
  let d := Z.pos (Qden q) in
  if n =? 0 then (0, 0)
  else
    let e := ilog2 (Z.abs n) d in
    let k := Z.max e (-1022) - 52 in
    (rne (n * 2 ^ Z.max 0 (- k)) (d * 2 ^ Z.max 0 k), k).

(** [m * 2^k] *)
Definition scale (m k : Z) : Q :=
  (m * 2 ^ Z.max 0 k) # Z.to_pos (2 ^ Z.max 0 (- k)).

(** A double, by value; the sign of a zero is not kept. *)
Inductive double : Type :=
| Finite (q : Q)
| Infinity (negative : bool)
| NaN.

(** The double nearest to a number: an infinity from [2^1024] on. *)
Definition to_double (q : Q) : double :=
  let (m, k) := round_nearest q in
  if 1024 <=? Z.log2 (Z.abs m) + k then Infinity (m <? 0)
  else Finite (scale m k).

Definition negative (q : Q) : bool := Qnum q <? 0.

Definition double_add (x y : double) : double :=
  match x, y with
  | Finite a, Finite b => to_double (a + b)
  | Infinity s, Finite _ | Finite _, Infinity s => Infinity s
  | Infinity s, Infinity s' => if Bool.eqb s s' then Infinity s else NaN
  | _, _ => NaN
  end.

Definition double_mul (x y : double) : double :=
  match x, y with
  | Finite a, Finite b => to_double (a * b)
  | Infinity s, Finite b | Finite b, Infinity s =>
      if Qnum b =? 0 then NaN else Infinity (xorb s (negative b))
  | Infinity s, Infinity s' => Infinity (xorb s s')
  | _, _ => NaN
  end.

Definition finite (x : double) : option double :=
  match x with
  | Finite _ => Some x
  | _ => None
  end.

Definition double_value (x : double) : option Q :=
  match x with
  | Finite q => Some q
  | _ => None
  end.

(** The floats of CPython.  Converting an integer and dividing two
    integers round correctly and raise [OverflowError] beyond the largest
    double; [math.floor] and [math.ceil] raise it on an infinity.  (On a
    NaN they raise [ValueError]; this module multiplies and adds finite
    operands only, which gives no NaN.) *)
Definition binary64 : PyFloat :=
  {| float := double;
     float_of_int := fun z => finite (to_double (inject_Z z));
     float_half := Finite (1 # 2);
     float_add := double_add;
     float_mul := double_mul;
     float_div_int := fun a b => finite (to_double (inject_Z a / inject_Z b));
     float_floor := fun x => option_map Qfloor (double_value x);
     float_ceil := fun x => option_map Qceiling (double_value x);
     float_value := double_value |}.

(** ** Python and numpy primitives *)

(** [math.ceil] of a number given exactly; [load_image] applies it to the
    integer extents of the windows, which it returns as they are. *)
Definition math_ceil (x : Q) : Z := Qceiling x.

(** [range(n)] *)
Definition range (n : Z) : list Z := map Z.of_nat (seq 0 (Z.to_nat n)).

(** [max(xs)] of a non-empty iterable; [ValueError] on an empty one. *)
Definition py_max (xs : list Z) : Result Z :=
  match xs with
  | [] => Raise ValueError
  | x :: xs' => Ok (fold_left Z.max xs' x)
  end.

(** A window shape [(rows, cols)], an index [(i, j)], a step size, an
    offset, a shape: pairs of integers, indexed by axis 0 and 1. *)
Definition Pair : Type := (Z * Z)%type.
Definition Window : Type := Pair.

Definition axis (p : Pair) (i : nat) : Z :=
  match i with
  | O => fst p
  | _ => snd p
  end.

(** Tuple comparison: lexicographic. *)
Definition tuple_ltb (a b : Pair) : bool :=
  (fst a <? fst b) || ((fst a =? fst b) && (snd a <? snd b)).

(** [sorted(windows, reverse=True)]: a stable sort into descending order. *)
Fixpoint insert_desc (x : Pair) (l : list Pair) : list Pair :=
  match l with
  | [] => [x]
  | y :: l' => if tuple_ltb x y then y :: insert_desc x l' else x :: l
  end.

Definition sorted_reverse (ws : list Pair) : list Pair :=
  fold_right insert_desc [] ws.

(** A two-dimensional numpy array: its shape and its entries. *)
Record ndarray : Type := mk_ndarray {
  arr_shape : Pair;
  arr_at : Z -> Z -> Z
}.

(** [slice(start, stop)] *)
Record slice : Type := mk_slice {
  slice_start : Z;
  slice_stop : Z
}.

(** [slice.indices(len)] for a unit step: negative bounds count from the
    end, and both bounds are clipped to [0, len]. *)
Definition clip_bound (x len : Z) : Z :=
  if x <? 0 then Z.max 0 (x + len) else Z.min x len.

Definition slice_indices (s : slice) (len : Z) : Z * Z :=
  (clip_bound (slice_start s) len, clip_bound (slice_stop s) len).

Definition slice_length (s : slice) (len : Z) : Z :=
  let (b, e) := slice_indices s len in Z.max 0 (e - b).

(** [a[s0, s1]]: basic slicing never raises. *)
Definition ndarray_getitem (a : ndarray) (s0 s1 : slice) : ndarray :=
  let b0 := fst (slice_indices s0 (fst (arr_shape a))) in
  let b1 := fst (slice_indices s1 (snd (arr_shape a))) in
  {| arr_shape := (slice_length s0 (fst (arr_shape a)),
                   slice_length s1 (snd (arr_shape a)));
     arr_at := fun r c => arr_at a (b0 + r) (b1 + c) |}.

(** ** The raster collaborator

    [satsense.image.Image] is used through its [shape], its [crs] and
    [transform], its [scaled_transform] and its [copy_block]; what they
    answer, and whether they raise, is the image's business, so they are
    fields of the handle.  A coordinate reference system and an affine
    transform are carried and never looked into.  [copy_block] returns a
    mapping from layer keys to arrays. *)

Definition Block : Type := ((Z * Z) * (Z * Z))%type.

Definition Crs : Type := string.
Definition Transform : Type := string.

Record Image : Type := mk_Image {
  img_shape : Pair;
  img_crs : Result Crs;
  img_transform : Result Transform;
  scaled_transform : Pair -> Result Transform;
  copy_block : Block -> Result (string -> option ndarray)
}.

(** A block is materialised at its own size: the array of every layer
    has one row and one column per coordinate of the block. *)
Definition block_extent (b : Block) : Pair :=
  (snd (fst b) - fst (fst b), snd (snd b) - fst (snd b)).

Definition copies_whole_blocks (img : Image) : Prop :=
  forall b layers key arr,
    copy_block img b = Ok layers -> layers key = Some arr ->
    arr_shape arr = block_extent b.

(** ** Generators *)

(** A mask: rows of entries, [None] for a masked-out entry. *)
Definition Mask : Type := list (list (option Z)).

(** The fields the subclasses add to [Generator]. *)
Inductive Variant : Type :=
| Base
| RandomSample (masks : list Mask) (p : option (list Q))
               (samples : option Z) (seed : option Z)
| Full (step_size : Pair) (offset : Pair) (shape : Pair).

Record Generator : Type := mk_Generator {
  image : Image;
  crs : Crs;
  transform : Transform;
  loaded_itype : option string;
  _image_cache : option ndarray;
  _windows : option (list Window);
  _padding : option Pair;
  variant : Variant
}.

(** A generator as a constructor leaves it: nothing loaded. *)
Definition unloaded (img : Image) (c : Crs) (t : Transform) (v : Variant)
  : Generator :=
  {| image := img; crs := c; transform := t; loaded_itype := None;
     _image_cache := None; _windows := None; _padding := None;
     variant := v |}.

(** [Generator.__init__] *)
Definition Generator_init (img : Image) : Result Generator :=
  c <- img_crs img ;;
  t <- img_transform img ;;
  Ok (unloaded img c t Base).

(** [RandomSampleGenerator.__init__] *)
Definition RandomSampleGenerator_init (img : Image) (masks : list Mask)
    (p : option (list Q)) (samples : option Z) (seed : option Z)
  : Result Generator :=
  self <- Generator_init img ;;
  Ok (unloaded img (crs self) (transform self)
               (RandomSample masks p samples seed)).

(** The [shape] argument of [FullGenerator.__init__]: [None], an empty
    tuple, or a pair.  Only a non-empty tuple is truthy. *)
Inductive ShapeArg : Type :=
| ShapeNone
| ShapeEmpty
| ShapePair (s : Pair).

Definition truthy (s : ShapeArg) : bool :=
  match s with
  | ShapePair _ => true
  | _ => false
  end.

(** [FullGenerator.__init__]; the first branch of the match is
    [if not shape]. *)
Definition FullGenerator_init (FP : PyFloat) (img : Image)
    (step_size offset : Pair) (shape : ShapeArg) : Result Generator :=
  self <- Generator_init img ;;
  shape' <-
    match shape with
    | ShapeNone | ShapeEmpty =>
        r <- ceil_truediv FP (axis (img_shape img) 0) (axis step_size 0) ;;
        c <- ceil_truediv FP (axis (img_shape img) 1) (axis step_size 1) ;;
        Ok (r, c)
    | ShapePair s => Ok s
    end ;;
  t <- scaled_transform img step_size ;;
  Ok (unloaded img (crs self) t (Full step_size offset shape')).

(** [_get_blocks]: [Generator._get_blocks], overridden by
    [FullGenerator._get_blocks]. *)
Definition _get_blocks (self : Generator) : Result Block :=
  match _padding self with
  | None => Raise TypeError
  | Some padding =>
      match variant self with
      | Full step_size offset shape =>
          let blk i :=
            let offset_i := axis offset i * axis step_size i in
            let start := offset_i - axis padding i in
            let end_ := offset_i + axis padding i
                        + axis shape i * axis step_size i in
            (start, end_) in
          Ok (blk 0%nat, blk 1%nat)
      | _ =>
          let blk i :=
            let start := - axis padding i in
            let end_ := axis (img_shape (image self)) i + axis padding i in
            (start, end_) in
          Ok (blk 0%nat, blk 1%nat)
      end
  end.

(** The padding [load_image] computes:
    [tuple(max(math.ceil(w[i]) for w in windows) for i in range(2))]. *)
Definition compute_padding (windows : list Window) : Result Pair :=
  p0 <- py_max (map (fun w => math_ceil (inject_Z (axis w 0))) windows) ;;
  p1 <- py_max (map (fun w => math_ceil (inject_Z (axis w 1))) windows) ;;
  Ok (p0, p1).

Definition set_windows (self : Generator) (ws : list Window) : Generator :=
  {| image := image self; crs := crs self; transform := transform self;
     loaded_itype := loaded_itype self;
     _image_cache := _image_cache self; _windows := Some ws;
     _padding := _padding self; variant := variant self |}.

Definition set_padding (self : Generator) (p : Pair) : Generator :=
  {| image := image self; crs := crs self; transform := transform self;
     loaded_itype := loaded_itype self;
     _image_cache := _image_cache self; _windows := _windows self;
     _padding := Some p; variant := variant self |}.

Definition set_cache (self : Generator) (itype : string) (a : ndarray)
  : Generator :=
  {| image := image self; crs := crs self; transform := transform self;
     loaded_itype := Some itype;
     _image_cache := Some a; _windows := _windows self;
     _padding := _padding self; variant := variant self |}.

(** [Generator.load_image]: the generator after the call, and the
    exception the call raised, if any.  The attributes assigned before an
    exception keep their new values. *)
Definition load_image (self : Generator) (itype : string)
    (windows : list Window) : Generator * option PyError :=
  let self1 := set_windows self (sorted_reverse windows) in
  match compute_padding windows with
  | Raise e => (self1, Some e)
  | Ok padding =>
      let self2 := set_padding self1 padding in
      match _get_blocks self2 with
      | Raise e => (self2, Some e)
      | Ok block =>
          match copy_block (image self2) block with
          | Raise e => (self2, Some e)
          | Ok layers =>
              match layers itype with
              | None => (self2, Some KeyError)
              | Some cache => (set_cache self2 itype cache, None)
              end
          end
      end
  end.

(** [_get_slices]: [Generator._get_slices], overridden by
    [FullGenerator._get_slices]. *)
Definition _get_slices (FP : PyFloat) (self : Generator) (index : Pair)
    (window : Window) : Result (slice * slice) :=
  match _padding self with
  | None => Raise TypeError
  | Some padding =>
      let sl i :=
        mid <-
          match variant self with
          | Full step_size _ _ =>
              m <- floor_cell_centre FP (axis index i) (axis step_size i) ;;
              Ok (axis padding i + m)
          | _ => Ok (axis padding i + axis index i)
          end ;;
        half <- floor_half_of FP (axis window i) ;;
        let start := mid - half in
        let end_ := start + axis window i in
        Ok (mk_slice start end_) in
      s0 <- sl 0%nat ;;
      s1 <- sl 1%nat ;;
      Ok (s0, s1)
  end.

(** [Generator.__getitem__] at [index = (i, j, window)] *)
Definition __getitem__ (FP : PyFloat) (self : Generator)
    (index : Z * Z * Window) : Result ndarray :=
  let '(i, j, window) := index in
  slices <- _get_slices FP self (i, j) window ;;
  match _image_cache self with
  | None => Raise TypeError
  | Some cache => Ok (ndarray_getitem cache (fst slices) (snd slices))
  end.

Definition unloaded_msg : string :=
  "Please load an image first using load_image.".

(** [FullGenerator.__iter__] *)
Definition FullGenerator_iter (FP : PyFloat) (self : Generator)
  : Trace ndarray :=
  match _image_cache self with
  | None => raising (RuntimeError unloaded_msg)
  | Some _ =>
      match variant self with
      | Full _ _ shape =>
          for_each (range (axis shape 0)) (fun i =>
            for_each (range (axis shape 1)) (fun j =>
              match _windows self with
              | None => raising TypeError
              | Some windows =>
                  for_each windows (fun window =>
                    match __getitem__ FP self (i, j, window) with
                    | Ok a => yield a
                    | Raise e => raising e
                    end)
              end))
      | _ => raising TypeError (* not a FullGenerator *)
      end
  end.

(** [FullGenerator.split] *)
Fixpoint split_jobs (FP : PyFloat) (self : Generator)
    (step_size offset shape : Pair)
    (chunk_size : Z) (jobs : list Z) : Trace Generator :=
  match jobs with
  | [] => finished
  | job :: jobs' =>
      let row_offset := axis offset 0 + job * chunk_size in
      let row_length := Z.min chunk_size (axis shape 0 - row_offset) in
      if row_length <=? 0 then finished
      else
        match FullGenerator_init FP (image self) step_size
                (row_offset, axis offset 1)
                (ShapePair (row_length, axis shape 1)) with
        | Raise e => raising e
        | Ok sub =>
            then_ (yield sub)
                  (split_jobs FP self step_size offset shape chunk_size jobs')
        end
  end.

Definition split (FP : PyFloat) (self : Generator) (n_chunks : Z)
  : Trace Generator :=
  match variant self with
  | Full step_size offset shape =>
      match ceil_truediv FP (axis shape 0) n_chunks with
      | Raise e => raising e
      | Ok chunk_size =>
          split_jobs FP self step_size offset shape chunk_size
                     (range n_chunks)
      end
  | _ => raising TypeError
  end.

(** ** Random sampling *)

(** [numpy.random.RandomState]: the generator's state, seeding, and
    [choice(a, p=p)] for an integer [a], which returns the drawn element
    of [range(a)] and advances the state.  The Mersenne Twister itself is
    numpy's business; the laws below are what the sampling code relies
    on. *)
Record RandomStateAPI : Type := mk_RandomStateAPI {
  rstate : Type;
  RandomState : Z -> Result rstate;
  choice : rstate -> Z -> option (list Q) -> Result (Z * rstate)
}.

Record RandomStateLaws (R : RandomStateAPI) : Prop := mk_RandomStateLaws {
  choice_range : forall st a p k st',
    choice R st a p = Ok (k, st') -> 0 <= k < a;
  choice_uniform : forall st a,
    0 < a -> exists k st', choice R st a None = Ok (k, st');
  choice_empty : forall st a p,
    a <= 0 -> choice R st a p = Raise ValueError
}.

(** What a process holds besides the generator object: the state of the
    module-level generator behind [np.random.choice], and the state that
    [RandomState(seed=None)] obtains from the operating system. *)
Record World (R : RandomStateAPI) : Type := mk_World {
  np_random : rstate R;
  os_entropy : rstate R
}.
Arguments np_random {R} w.
Arguments os_entropy {R} w.

(** [len(xs)] *)
Definition len {A} (xs : list A) : Z := Z.of_nat (List.length xs).

(** [xs[k]] on a list: a negative index counts from the end. *)
Definition list_getitem {A} (xs : list A) (k : Z) : Result A :=
  let k' := if k <? 0 then k + len xs else k in
  if k' <? 0 then Raise IndexError
  else match nth_error xs (Z.to_nat k') with
       | Some x => Ok x
       | None => Raise IndexError
       end.

(** [mask.filled(0)] *)
Definition filled (mask : Mask) (fill : Z) : list (list Z) :=
  map (map (fun e => match e with Some v => v | None => fill end)) mask.

Definition enumerate {A} (xs : list A) : list (Z * A) :=
  combine (range (len xs)) xs.

(** [np.argwhere(a)]: the positions of the non-zero entries, row-major. *)
Definition argwhere (a : list (list Z)) : list Pair :=
  flat_map (fun ir =>
    flat_map (fun jv => if snd jv =? 0 then [] else [(fst ir, fst jv)])
             (enumerate (snd ir)))
    (enumerate a).

(** The [while sample < self.samples] loop of
    [RandomSampleGenerator.__iter__].  [emit (i, j) truth] is what the loop
    body yields for a drawn position and class.  [rand_state] is the local
    generator, [np_rand] the module-level one.  [None]: [fuel] iterations
    did not finish the loop. *)
Fixpoint sample_loop {X} (R : RandomStateAPI) (emit : Pair -> Z -> Trace X)
    (masks : list Mask) (p : option (list Q)) (samples : Z)
    (fuel : nat) (sample : Z) (rand_state np_rand : rstate R)
  : option (Trace X) :=
  if sample <? samples then
    match fuel with
    | O => None
    | S fuel' =>
        let sample := sample + 1 in
        match choice R rand_state (len masks) p with
        | Raise e => Some (raising e)
        | Ok (truth, rand_state) =>
            match list_getitem masks truth with
            | Raise e => Some (raising e)
            | Ok mask =>
                let choices := argwhere (filled mask 0) in
                match choice R np_rand (len choices) None with
                | Raise e => Some (raising e)
                | Ok (k, np_rand) =>
                    match list_getitem choices k with
                    | Raise e => Some (raising e)
                    | Ok ij =>
                        match emit ij truth with
                        | (ys, Some e) => Some (ys, Some e)
                        | (ys, None) =>
                            option_map (then_ (ys, None))
                              (sample_loop R emit masks p samples fuel'
                                           sample rand_state np_rand)
                        end
                    end
                end
            end
        end
    end
  else Some finished.

(** [RandomSampleGenerator.__iter__], generic in what is observed of each
    draw. *)
Definition sampling {X} (R : RandomStateAPI) (emit : Pair -> Z -> Trace X)
    (fuel : nat) (self : Generator) (world : World R) : option (Trace X) :=
  match _image_cache self with
  | None => Some (raising (RuntimeError unloaded_msg))
  | Some _ =>
      match variant self with
      | RandomSample masks p samples seed =>
          let sample := 0 in
          match match seed with
                | Some s => RandomState R s
                | None => Ok (os_entropy world)
                end with
          | Raise e => Some (raising e)
          | Ok rand_state =>
              match samples with
              | None => Some (raising TypeError)
              | Some samples =>
                  sample_loop R emit masks p samples fuel sample
                              rand_state (np_random world)
              end
          end
      | _ => Some (raising TypeError)
      end
  end.

(** The body of [for window in self._windows: yield self[i, j, window],
    truth]. *)
Definition yield_windows (FP : PyFloat) (self : Generator) (ij : Pair)
    (truth : Z) : Trace (ndarray * Z) :=
  match _windows self with
  | None => raising TypeError
  | Some windows =>
      for_each windows (fun window =>
        match __getitem__ FP self (fst ij, snd ij, window) with
        | Ok a => yield (a, truth)
        | Raise e => raising e
        end)
  end.

(** [RandomSampleGenerator.__iter__] *)
Definition RandomSampleGenerator_iter (FP : PyFloat) (R : RandomStateAPI)
    (fuel : nat) (self : Generator) (world : World R)
  : option (Trace (ndarray * Z)) :=
  sampling R (yield_windows FP self) fuel self world.

(** The draws behind the iteration: the position and the class of each
    sample, in order. *)
Definition sample_draws (R : RandomStateAPI) (fuel : nat)
    (self : Generator) (world : World R) : option (Trace (Pair * Z)) :=
  sampling R (fun ij truth => yield (ij, truth)) fuel self world.

(** ** Random points of a geometry *)

(** A shapely geometry as [generate_random_point] uses it: its [bounds]
    [(minx, miny, maxx, maxy)] and its [contains] test on a point [(x, y)].
    Coordinates are floats; their type [F] is left open. *)
Record Polygon (F : Type) : Type := mk_Polygon {
  bounds : F * F * F * F;
  contains : F * F -> bool
}.
Arguments bounds {F} p.
Arguments contains {F} p pnt.

(** [np.random.uniform(low, high)] on the module-level generator: the draw
    and the advanced state. *)
Definition Uniform (F St : Type) : Type := St -> F -> F -> F * St.

(** The [while counter < 1] loop of [generate_random_point], for the
    bounds [(minx, miny, maxx, maxy)] taken before it: [pnt] is the last
    point drawn, if any.  [None]: [fuel] iterations did not finish the
    loop. *)
Fixpoint random_point_loop {F St} (uniform : Uniform F St)
    (polygon : Polygon F) (minx miny maxx maxy : F)
    (fuel : nat) (counter : Z) (pnt : option (F * F))
    (st : St) : option (option (F * F) * St) :=
  if counter <? 1 then
    match fuel with
    | O => None
    | S fuel' =>
        let (x, st) := uniform st minx maxx in
        let (y, st) := uniform st miny maxy in
        let pnt := (x, y) in
        let counter := if contains polygon pnt then counter + 1 else counter in
        random_point_loop uniform polygon minx miny maxx maxy
                          fuel' counter (Some pnt) st
    end
  else Some (pnt, st).

(** [RandomSampleGenerator.generate_random_point] *)
Definition generate_random_point {F St} (uniform : Uniform F St)
    (polygon : Polygon F) (fuel : nat) (st : St)
  : option (option (F * F) * St) :=
  let '(minx, miny, maxx, maxy) := bounds polygon in
  let counter := 0 in
  random_point_loop uniform polygon minx miny maxx maxy fuel counter None st.

(** ** The statements of the specification, in its own words *)

(** Padding as the specification words it: per axis, the ceiling of half
    the largest window extent. *)
Definition spec_half_padding (windows : list Window) : Result Pair :=
  m0 <- py_max (map (fun w => axis w 0) windows) ;;
  m1 <- py_max (map (fun w => axis w 1) windows) ;;
  Ok (math_ceil (inject_Z m0 / 2), math_ceil (inject_Z m1 / 2)).

(** [m] is the largest element of [xs]. *)
Definition is_max_of (xs : list Z) (m : Z) : Prop :=
  In m xs /\ forall x, In x xs -> x <= m.

(** Pixel-indexed block: [[-pad, raster_extent + pad)] per axis. *)
Definition spec_pixel_block (pad raster : Pair) : Block :=
  ((- fst pad, fst raster + fst pad), (- snd pad, snd raster + snd pad)).

(** Grid-indexed block:
    [[offset*step - pad, offset*step + pad + shape*step)] per axis. *)
Definition spec_grid_block (pad step offset shape : Pair) : Block :=
  ((fst offset * fst step - fst pad,
    fst offset * fst step + fst pad + fst shape * fst step),
   (snd offset * snd step - snd pad,
    snd offset * snd step + snd pad + snd shape * snd step)).

(** The half-open range [[start, start + w)] with
    [start = mid - floor(w / 2)], in integer arithmetic. *)
Definition spec_range (mid w : Z) : slice :=
  mk_slice (mid - w / 2) (mid - w / 2 + w).

(** Pixel policy: [mid = padding + index]. *)
Definition spec_pixel_mid (pad index : Z) : Z := pad + index.

(** Step policy: [mid = padding + floor((index + 1/2) * step)], in integer
    arithmetic. *)
Definition spec_step_mid (pad index step : Z) : Z :=
  pad + ((2 * index + 1) * step) / 2.

(** [ceil(a / b)] in integer arithmetic. *)
Definition ceil_div (a b : Z) : Z := - ((- a) / b).

(** ** Notions used in the statements *)

(** [a] does not come after [b] in descending order. *)
Definition tuple_ge (a b : Pair) : Prop := tuple_ltb a b = false.

(** The indices a generator is meant to be asked for: pixels of the raster
    for the pixel-indexed variants, cells of the shape for the sweep
    generator. *)
Definition in_logical_shape (g : Generator) (index : Pair) : Prop :=
  match variant g with
  | Full _ _ shape =>
      0 <= fst index < fst shape /\ 0 <= snd index < snd shape
  | _ =>
      0 <= fst index < fst (img_shape (image g))
      /\ 0 <= snd index < snd (img_shape (image g))
  end.

Definition steps_nonnegative (g : Generator) : Prop :=
  match variant g with
  | Full step_size _ _ => 0 <= fst step_size /\ 0 <= snd step_size
  | _ => True
  end.

(** The sub-array a loaded generator returns at an index. *)
Definition item_at (FP : PyFloat) (g : Generator) (i j : Z) (w : Window)
  : ndarray :=
  match __getitem__ FP g (i, j, w) with
  | Ok a => a
  | Raise _ => mk_ndarray (0, 0) (fun _ _ => 0)
  end.

(** The class labels of a trace of draws. *)
Definition classes (t : option (Trace (Pair * Z)))
  : option (list Z * option PyError) :=
  option_map (fun t => (map snd (fst t), snd t)) t.

(** The image answers the constructor of a sweep generator with steps
    [step_size]: its [crs], its [transform] and the scaled transform. *)
Definition image_answers (img : Image) (step_size : Pair) (c : Crs)
    (t : Transform) : Prop :=
  img_crs img = Ok c
  /\ (exists t0, img_transform img = Ok t0)
  /\ scaled_transform img step_size = Ok t.

(** The sub-generator [split] builds for chunk [k] of a generator whose
    row offset is 0. *)
Definition chunk_generator (img : Image) (c : Crs) (t : Transform)
    (step_size : Pair) (oc R C : Z) (chunk_size k : Z) : Generator :=
  unloaded img c t
           (Full step_size (k * chunk_size, oc)
                 (Z.min chunk_size (R - k * chunk_size), C)).

(** The image serves the raster [pix]: every block is materialised at its
    own size, and entry [(r, c)] of a layer's array is that layer's pixel
    at the block's origin plus [(r, c)]. *)
Definition serves_raster (img : Image) (pix : string -> Z -> Z -> Z) : Prop :=
  forall b layers key arr,
    copy_block img b = Ok layers -> layers key = Some arr ->
    arr_shape arr = block_extent b
    /\ forall r c,
        0 <= r < fst (block_extent b) -> 0 <= c < snd (block_extent b) ->
        arr_at arr r c = pix key (fst (fst b) + r) (fst (snd b) + c).

(** The raster coordinates of the first entry of the window at an index:
    the pixel itself, or the centre of the cell, less half the window. *)
Definition window_origin (g : Generator) (index : Pair) (window : Window)
  : Pair :=
  match variant g with
  | Full step_size offset _ =>
      (fst offset * fst step_size + ((2 * fst index + 1) * fst step_size) / 2
       - fst window / 2,
       snd offset * snd step_size + ((2 * snd index + 1) * snd step_size) / 2
       - snd window / 2)
  | _ => (fst index - fst window / 2, snd index - snd window / 2)
  end.

(** Two arrays of one shape with the same entries. *)
Definition same_array (a b : ndarray) : Prop :=
  arr_shape a = arr_shape b
  /\ forall r c,
      0 <= r < fst (arr_shape a) -> 0 <= c < snd (arr_shape a) ->
      arr_at a r c = arr_at b r c.

(** The sub-generator [split] builds for chunk [k] of a generator at row
    offset [o]. *)
Definition chunk_at (img : Image) (c : Crs) (t : Transform)
    (step_size : Pair) (o oc R C : Z) (chunk_size k : Z) : Generator :=
  unloaded img c t
           (Full step_size (o + k * chunk_size, oc)
                 (Z.min chunk_size (R - (o + k * chunk_size)), C)).

(** Entry [(i, j)] of a mask is truthy: present and non-zero. *)
Definition truthy_at (mask : Mask) (i j : Z) : Prop :=
  exists row v,
    0 <= i /\ 0 <= j
    /\ nth_error mask (Z.to_nat i) = Some row
    /\ nth_error row (Z.to_nat j) = Some (Some v)
    /\ v <> 0.

(** What a draw is: a class of the mask list and a truthy position of
    that class's mask. *)
Definition draw_in_masks (masks : list Mask) (d : Pair * Z) : Prop :=
  exists mask,
    0 <= snd d < len masks
    /\ nth_error masks (Z.to_nat (snd d)) = Some mask
    /\ truthy_at mask (fst (fst d)) (snd (fst d)).

(** The size of a window: the number of its entries. *)
Definition window_size (w : Window) : Z := fst w * snd w.

(** Larger windows first. *)
Definition descending_size (ws : list Window) : Prop :=
  StronglySorted (fun a b => window_size b <= window_size a) ws.

(** *** Operands on which the float expressions are exact *)

(** Both extents of a window have at most 53 bits. *)
Definition window_exact (w : Window) : Prop :=
  double_exact (fst w) /\ double_exact (snd w).

(** [(i + .5) * s] is exact: [i + .5], [s] and the product are integers or
    half-integers of at most 53 bits. *)
Definition cell_exact (i s : Z) : Prop :=
  Z.abs i < 2 ^ 52 /\ double_exact s /\ double_exact ((2 * i + 1) * s).

(** The float expressions of [_get_slices] are exact at an index and a
    window. *)
Definition slices_exact (g : Generator) (index : Pair) (window : Window)
  : Prop :=
  window_exact window
  /\ match variant g with
     | Full step_size _ _ =>
         cell_exact (fst index) (fst step_size)
         /\ cell_exact (snd index) (snd step_size)
     | _ => True
     end.

(** The sweep of a generator stays where [(i + .5) * step] is exact: on
    each axis the extent [shape * step] in pixels has at most 52 bits. *)
Definition grid_exact (g : Generator) : Prop :=
  match variant g with
  | Full step_size _ shape =>
      (fst shape <= 2 ^ 52 /\ fst step_size <= 2 ^ 53
       /\ 2 * (fst shape * fst step_size) <= 2 ^ 53)
      /\ (snd shape <= 2 ^ 52 /\ snd step_size <= 2 ^ 53
          /\ 2 * (snd shape * snd step_size) <= 2 ^ 53)
  | _ => True
  end.

(** ** Inputs to run the code on *)

(** An image with the single layer ["rgb"], whose pixel at [(r, c)] holds
    [pix r c] (also outside the raster, where a real image pads). *)
Definition raster_image (shape : Pair) (pix : Z -> Z -> Z) : Image :=
  {| img_shape := shape;
     img_crs := Ok "EPSG:4326"%string;
     img_transform := Ok "identity"%string;
     scaled_transform := fun _ => Ok "scaled"%string;
     copy_block := fun b =>
       Ok (fun key =>
             if String.eqb key "rgb"
             then Some {| arr_shape := block_extent b;
                          arr_at := fun r c =>
                            pix (fst (fst b) + r) (fst (snd b) + c) |}
             else None) |}.

Definition image10 : Image := raster_image (10, 10) (fun r c => 100 * r + c).

(** The base generator on [image10], as [Generator_init] builds it. *)
Definition base10 : Generator :=
  unloaded image10 "EPSG:4326"%string "identity"%string Base.

(** The sweep generator of the specification's example: steps of 2 pixels,
    5 x 5 cells. *)
Definition sweep5 : Generator :=
  unloaded image10 "EPSG:4326"%string "scaled"%string (Full (2, 2) (0, 0) (5, 5)).

(** The second sub-generator of [split sweep5 2]: rows 3 and 4. *)
Definition sweep5_rows_3_4 : Generator :=
  unloaded image10 "EPSG:4326"%string "scaled"%string (Full (2, 2) (3, 0) (2, 5)).

(** A linear congruential generator standing in for numpy's Mersenne
    Twister: seeds are the 32-bit unsigned integers, [choice] reads the
    draw off the state and ignores the weights. *)
Definition lcg : RandomStateAPI :=
  {| rstate := Z;
     RandomState := fun s =>
       if (0 <=? s) && (s <? 2 ^ 32) then Ok s else Raise ValueError;
     choice := fun st a _ =>
       if a <=? 0 then Raise ValueError
       else Ok (st mod a, (1103515245 * st + 12345) mod 2 ^ 31) |}.

(** A mask with two positions, (0, 0) and (0, 1). *)
Definition two_positions : Mask := [[Some 1; Some 1]].

(** The sampling generator on [image10], as [RandomSampleGenerator_init]
    builds it. *)
Definition sampling10 (masks : list Mask) (p : option (list Q))
    (samples seed : option Z) : Generator :=
  unloaded image10 "EPSG:4326"%string "identity"%string
           (RandomSample masks p samples seed).

(** A loaded sampling generator over [image10] with [two_positions] as its
    single class and the window (4, 4). *)
Definition sampler (samples : option Z) (seed : option Z) : Generator :=
  fst (load_image (sampling10 [two_positions] None samples seed)
                  "rgb" [(4, 4)]).

(** A unit square on integer coordinates and a source of draws that walks
    along the diagonal, to run the code on. *)
Definition unit_square : Polygon Z :=
  {| bounds := (0, 0, 1, 1);
     contains := fun pnt =>
       (0 <=? fst pnt) && (fst pnt <=? 1) && (0 <=? snd pnt) && (snd pnt <=? 1) |}.

Definition walk : Uniform Z Z := fun st low high => (st + low, st - 1).

(** * Properties *)

(** ** The float expressions on operands of at most 53 bits *)

Lemma Qceiling_unique (q : Q) (n : Z) :
  (inject_Z (n - 1) < q)%Q -> (q <= inject_Z n)%Q -> Qceiling q = n.
Proof.
  intros Hlo Hhi.
  pose proof (Qle_ceiling q) as H1. pose proof (Qceiling_lt q) as H2.
  assert (A : (inject_Z (n - 1) < inject_Z (Qceiling q))%Q)
    by (eapply Qlt_le_trans; eauto).
  assert (B : (inject_Z (Qceiling q - 1) < inject_Z n)%Q)
    by (eapply Qlt_le_trans; eauto).
  rewrite <- Zlt_Qlt in A, B. lia.
Qed.

Lemma ceil_integer (w : Z) : math_ceil (inject_Z w) = w.
Proof. apply Qceiling_Z. Qed.

Lemma ceil_div_bounds (a b : Z) :
  0 < b -> (ceil_div a b - 1) * b < a <= ceil_div a b * b.
Proof.
  intros Hb. unfold ceil_div.
  pose proof (Z.div_mod (- a) b ltac:(lia)) as Hdm.
  pose proof (Z.mod_pos_bound (- a) b Hb) as Hm.
  nia.
Qed.

Section FloatFacts.

Context (FP : PyFloat) (L : PyFloatLaws FP).

Lemma floor_half_exact (w : Z) :
  double_exact w -> floor_half_of FP w = Ok (w / 2).
Proof.
  intros Hw. unfold floor_half_of.
  destruct (of_int_exact FP L w Hw) as (f & q & -> & Hf & Hq).
  destruct (value_half FP L) as (h & Hh & Hhq). cbn [overflow bind].
  destruct (mul_exact FP L _ _ _ _ Hh Hf) as (p & Hp & Hpq).
  { exists w. split; [exact Hw|]. right. rewrite Hhq, Hq. field. }
  rewrite (floor_exact FP L _ _ Hp). cbn [overflow]. f_equal.
  rewrite Hpq, Hhq, Hq.
  transitivity (Qfloor (inject_Z w / inject_Z 2)).
  - apply Qfloor_comp. field.
  - symmetry. apply Zdiv_Qdiv.
Qed.

Lemma floor_cell_centre_exact (i s : Z) :
  Z.abs i < 2 ^ 52 -> double_exact s -> double_exact ((2 * i + 1) * s) ->
  floor_cell_centre FP i s = Ok (((2 * i + 1) * s) / 2).
Proof.
  intros Hi Hs His. unfold floor_cell_centre.
  destruct (of_int_exact FP L i) as (fi & qi & -> & Hfi & Hqi).
  { unfold double_exact. lia. }
  destruct (of_int_exact FP L s Hs) as (fs & qs & -> & Hfs & Hqs).
  destruct (value_half FP L) as (h & Hh & Hhq). cbn [overflow bind].
  destruct (add_exact FP L _ _ _ _ Hfi Hh) as (a & Ha & Haq).
  { exists (2 * i + 1). split; [unfold double_exact; lia|]. right.
    rewrite Hhq, Hqi, inject_Z_plus, inject_Z_mult. field. }
  destruct (mul_exact FP L _ _ _ _ Ha Hfs) as (p & Hp & Hpq).
  { exists ((2 * i + 1) * s). split; [exact His|]. right.
    rewrite Haq, Hhq, Hqi, Hqs, !inject_Z_mult, inject_Z_plus, inject_Z_mult.
    field. }
  rewrite (floor_exact FP L _ _ Hp). cbn [overflow]. f_equal.
  rewrite Hpq, Haq, Hhq, Hqi, Hqs.
  transitivity (Qfloor (inject_Z ((2 * i + 1) * s) / inject_Z 2)).
  - apply Qfloor_comp.
    rewrite !inject_Z_mult, inject_Z_plus, inject_Z_mult. field.
  - symmetry. apply Zdiv_Qdiv.
Qed.

(** The rounded quotient of two integers of at most 53 bits has the
    ceiling of the exact quotient. *)
Lemma rounded_quotient_ceiling (a b : Z) (q : Q) :
  0 < b -> Z.abs a < 2 ^ 53 ->
  (representable (inject_Z a / inject_Z b) ->
   (q == inject_Z a / inject_Z b)%Q) ->
  (Qabs (q - inject_Z a / inject_Z b) * inject_Z (2 ^ 53)
   <= Qabs (inject_Z a / inject_Z b))%Q ->
  Qceiling q = ceil_div a b.
Proof.
  intros Hb Ha Hexact Hrel.
  pose proof (ceil_div_bounds a b Hb) as Hn. set (n := ceil_div a b) in *.
  assert (HB : (0 < inject_Z b)%Q) by (rewrite Zlt_Qlt in Hb; exact Hb).
  set (X := (inject_Z a / inject_Z b)%Q) in *.
  assert (HX : (X * inject_Z b == inject_Z a)%Q).
  { unfold X. field. intros E. rewrite E in HB. discriminate. }
  destruct (Z.eq_dec a (n * b)) as [Heq|Hne].
  - assert (HXn : (X == inject_Z n)%Q).
    { unfold X. rewrite Heq, inject_Z_mult. field.
      intros E. rewrite E in HB. discriminate. }
    assert (Hq : (q == X)%Q).
    { apply Hexact. exists n. split; [unfold double_exact; nia|]. now left. }
    rewrite (Qceiling_comp _ _ Hq), (Qceiling_comp _ _ HXn).
    apply Qceiling_Z.
  - assert (Hlo : (inject_Z ((n - 1) * b) + 1 <= inject_Z a)%Q).
    { rewrite <- (inject_Z_plus _ 1), <- Zle_Qle. lia. }
    assert (Hhi : (inject_Z a + 1 <= inject_Z (n * b))%Q).
    { rewrite <- (inject_Z_plus _ 1), <- Zle_Qle. lia. }
    rewrite !inject_Z_mult in Hlo, Hhi.
    assert (HP : (inject_Z (2 ^ 53) == 9007199254740992)%Q) by reflexivity.
    assert (HA : (Qabs (inject_Z a) < 9007199254740992)%Q).
    { apply Qabs_case; intros _.
      - change 9007199254740992%Q with (inject_Z (2 ^ 53)).
        rewrite <- Zlt_Qlt. lia.
      - change 9007199254740992%Q with (inject_Z (2 ^ 53)).
        rewrite <- inject_Z_opp, <- Zlt_Qlt. lia. }
    assert (HAX : (Qabs X * inject_Z b == Qabs (inject_Z a))%Q).
    { rewrite <- HX, Qabs_Qmult. rewrite (Qabs_pos (inject_Z b)); [reflexivity|].
      now apply Qlt_le_weak. }
    rewrite HP in Hrel.
    set (e := (q - X)%Q) in *.
    assert (He : (Qabs e * inject_Z b < 1)%Q).
    { assert (H1 : (Qabs e * 9007199254740992 * inject_Z b
                    <= Qabs X * inject_Z b)%Q).
      { apply Qmult_le_compat_r; [exact Hrel|now apply Qlt_le_weak]. }
      rewrite HAX in H1. lra. }
    assert (Hq : (q == X + e)%Q) by (unfold e; ring).
    assert (Heb : (- 1 < e * inject_Z b /\ e * inject_Z b < 1)%Q).
    { revert He. apply Qabs_case; intros Hs He; split; nra. }
    apply Qceiling_unique.
    + assert (E : (inject_Z (n - 1) == inject_Z n - 1)%Q).
      { unfold Z.sub. rewrite inject_Z_plus. reflexivity. }
      rewrite E in Hlo |- *. clear E.
      apply (Qmult_lt_r _ _ (inject_Z b) HB). rewrite Hq. nra.
    + apply Qlt_le_weak. apply (Qmult_lt_r _ _ (inject_Z b) HB). rewrite Hq. nra.
Qed.

Lemma ceil_truediv_exact (a b : Z) :
  0 < b -> Z.abs a < 2 ^ 53 -> b <= 2 ^ 53 ->
  ceil_truediv FP a b = Ok (ceil_div a b).
Proof.
  intros Hb Ha Hb'. unfold ceil_truediv.
  destruct (Z.eqb_spec b 0); [lia|].
  destruct (div_int_rounded FP L a b) as (f & q & -> & Hf & Hex & Hrel);
    try (unfold double_exact; lia).
  cbn [overflow bind]. rewrite (ceil_exact FP L _ _ Hf). cbn [overflow].
  f_equal. now apply rounded_quotient_ceiling.
Qed.

(** The quotient of two integers of at most 53 bits does not overflow,
    nor does its ceiling. *)
Lemma ceil_truediv_succeeds (a b : Z) :
  b <> 0 -> double_exact a -> double_exact b ->
  exists n, ceil_truediv FP a b = Ok n.
Proof.
  intros Hb Ha Hb'. unfold ceil_truediv.
  destruct (Z.eqb_spec b 0); [contradiction|].
  destruct (div_int_rounded FP L a b Hb Ha Hb') as (f & q & -> & Hf & _).
  cbn [overflow bind]. rewrite (ceil_exact FP L _ _ Hf). cbn [overflow].
  eexists. reflexivity.
Qed.

End FloatFacts.

(** ** IEEE 754 doubles obey the laws *)

Lemma rne_exact (i d : Z) : 0 < d -> rne (i * d) d = i.
Proof.
  intros Hd. unfold rne. rewrite Z.div_mul, Z.mod_mul by lia.
  destruct (Z.ltb_spec (2 * 0) d); [reflexivity|lia].
Qed.

Lemma rne_error (n d : Z) : 0 < d -> 2 * Z.abs (rne n d * d - n) <= d.
Proof.
  intros Hd. unfold rne.
  pose proof (Z.div_mod n d ltac:(lia)) as E.
  pose proof (Z.mod_pos_bound n d Hd) as B.
  destruct (Z.ltb_spec (2 * (n mod d)) d); [nia|].
  destruct (Z.ltb_spec d (2 * (n mod d))); [nia|].
  destruct (Z.even (n / d)); nia.
Qed.

Lemma pow2_pos (k : Z) : 0 < 2 ^ Z.max 0 k.
Proof. apply Z.pow_pos_nonneg; lia. Qed.

Lemma pow2_split (a b : Z) : 0 <= a -> 0 <= b -> 2 ^ (a + b) = 2 ^ a * 2 ^ b.
Proof. intros. now apply Z.pow_add_r. Qed.

Lemma ilog2_spec (n d : Z) :
  0 < n -> 0 < d ->
  pow2_le (ilog2 n d) n d = true /\ pow2_le (ilog2 n d + 1) n d = false.
Proof.
  intros Hn Hd.
  destruct (Z.log2_spec n Hn) as [A0 A1].
  destruct (Z.log2_spec d Hd) as [B0 B1].
  pose proof (Z.log2_nonneg n). pose proof (Z.log2_nonneg d).
  set (a := Z.log2 n) in *. set (b := Z.log2 d) in *.
  rewrite <- Z.add_1_r in A1, B1.
  rewrite pow2_split in A1, B1 by lia. change (2 ^ 1) with 2 in *.
  assert (Pa : 0 < 2 ^ a) by (apply Z.pow_pos_nonneg; lia).
  assert (Pb : 0 < 2 ^ b) by (apply Z.pow_pos_nonneg; lia).
  assert (Hlo : pow2_le (a - b - 1) n d = true).
  { unfold pow2_le. apply Z.leb_le.
    destruct (Z.le_gt_cases 1 (a - b)).
    - rewrite (Z.max_r 0 (a - b - 1)), (Z.max_l 0 (- (a - b - 1))) by lia.
      assert (E : 2 ^ a = 2 ^ b * 2 ^ 1 * 2 ^ (a - b - 1))
        by (rewrite <- !pow2_split by lia; f_equal; lia).
      change (2 ^ 1) with 2 in E.
      assert (0 < 2 ^ (a - b - 1)) by (apply Z.pow_pos_nonneg; lia).
      change (2 ^ 0) with 1. nia.
    - rewrite (Z.max_l 0 (a - b - 1)), (Z.max_r 0 (- (a - b - 1))) by lia.
      assert (E : 2 ^ b * 2 ^ 1 = 2 ^ a * 2 ^ (- (a - b - 1)))
        by (rewrite <- !pow2_split by lia; f_equal; lia).
      change (2 ^ 1) with 2 in E.
      assert (0 < 2 ^ (- (a - b - 1))) by (apply Z.pow_pos_nonneg; lia).
      change (2 ^ 0) with 1. nia. }
  assert (Hhi : pow2_le (a - b + 1) n d = false).
  { unfold pow2_le. apply Z.leb_gt.
    destruct (Z.le_gt_cases (-1) (a - b)).
    - rewrite (Z.max_r 0 (a - b + 1)), (Z.max_l 0 (- (a - b + 1))) by lia.
      assert (E : 2 ^ a * 2 ^ 1 = 2 ^ b * 2 ^ (a - b + 1))
        by (rewrite <- !pow2_split by lia; f_equal; lia).
      change (2 ^ 1) with 2 in E.
      assert (0 < 2 ^ (a - b + 1)) by (apply Z.pow_pos_nonneg; lia).
      change (2 ^ 0) with 1. nia.
    - rewrite (Z.max_l 0 (a - b + 1)), (Z.max_r 0 (- (a - b + 1))) by lia.
      assert (E : 2 ^ b = 2 ^ a * 2 ^ 1 * 2 ^ (- (a - b + 1)))
        by (rewrite <- !pow2_split by lia; f_equal; lia).
      change (2 ^ 1) with 2 in E.
      assert (0 < 2 ^ (- (a - b + 1))) by (apply Z.pow_pos_nonneg; lia).
      change (2 ^ 0) with 1. nia. }
  unfold ilog2. fold a b.
  destruct (pow2_le (a - b) n d) eqn:Hm.
  - split; [exact Hm|exact Hhi].
  - split; [exact Hlo|]. now replace (a - b - 1 + 1) with (a - b) by lia.
Qed.

(** The mantissa of a number in the normal range lies in one binade. *)
Lemma mantissa_range (n d e : Z) :
  0 < n -> 0 < d ->
  pow2_le e n d = true -> pow2_le (e + 1) n d = false ->
  let k := e - 52 in
  d * 2 ^ Z.max 0 k * 2 ^ 52 <= n * 2 ^ Z.max 0 (- k)
  < d * 2 ^ Z.max 0 k * 2 ^ 53.
Proof.
  intros Hn Hd Hlo Hhi k. unfold pow2_le in *.
  apply Z.leb_le in Hlo. apply Z.leb_gt in Hhi. subst k.
  destruct (Z.le_gt_cases 52 e) as [C|C].
  - rewrite (Z.max_r 0 (e - 52)), (Z.max_l 0 (- (e - 52))) by lia.
    rewrite (Z.max_r 0 e), (Z.max_l 0 (- e)) in Hlo by lia.
    rewrite (Z.max_r 0 (e + 1)), (Z.max_l 0 (- (e + 1))) in Hhi by lia.
    change (2 ^ 0) with 1 in *.
    assert (E : 2 ^ e = 2 ^ (e - 52) * 2 ^ 52)
      by (rewrite <- pow2_split by lia; f_equal; lia).
    assert (E' : 2 ^ (e + 1) = 2 ^ (e - 52) * 2 ^ 53)
      by (rewrite <- pow2_split by lia; f_equal; lia).
    rewrite E in Hlo. rewrite E' in Hhi. lia.
  - rewrite (Z.max_l 0 (e - 52)), (Z.max_r 0 (- (e - 52))) by lia.
    change (2 ^ 0) with 1.
    destruct (Z.le_gt_cases 0 e) as [C0|C0].
    + rewrite (Z.max_r 0 e), (Z.max_l 0 (- e)) in Hlo by lia.
      rewrite (Z.max_r 0 (e + 1)), (Z.max_l 0 (- (e + 1))) in Hhi by lia.
      change (2 ^ 0) with 1 in *.
      assert (E : 2 ^ 52 = 2 ^ e * 2 ^ (- (e - 52)))
        by (rewrite <- pow2_split by lia; f_equal; lia).
      assert (E' : 2 ^ 53 = 2 ^ (e + 1) * 2 ^ (- (e - 52)))
        by (rewrite <- pow2_split by lia; f_equal; lia).
      assert (0 < 2 ^ (- (e - 52))) by (apply Z.pow_pos_nonneg; lia).
      rewrite E, E'. nia.
    + rewrite (Z.max_l 0 e), (Z.max_r 0 (- e)) in Hlo by lia.
      change (2 ^ 0) with 1 in *.
      assert (E : 2 ^ (- (e - 52)) = 2 ^ (- e) * 2 ^ 52)
        by (rewrite <- pow2_split by lia; f_equal; lia).
      destruct (Z.eq_dec e (-1)) as [->|C1].
      * change (2 ^ Z.max 0 (-1 + 1)) with 1 in Hhi.
        change (2 ^ Z.max 0 (- (-1 + 1))) with 1 in Hhi.
        change (2 ^ (- -1)) with 2 in *.
        change (2 ^ (- (-1 - 52))) with (2 ^ 53).
        split; [|lia].
        change (2 ^ (- (-1 - 52))) with (2 * 2 ^ 52) in E. lia.
      * rewrite (Z.max_l 0 (e + 1)), (Z.max_r 0 (- (e + 1))) in Hhi by lia.
        change (2 ^ 0) with 1 in *.
        assert (E' : 2 ^ (- (e - 52)) = 2 ^ (- (e + 1)) * 2 ^ 53)
          by (rewrite <- pow2_split by lia; f_equal; lia).
        split; [rewrite E; nia|rewrite E'; nia].
Qed.

Lemma pow2_le_mono (n d h e : Z) :
  0 < n -> 0 < d -> h <= e ->
  pow2_le e n d = true -> pow2_le h n d = true.
Proof.
  intros Hn Hd Hhe. unfold pow2_le. rewrite !Z.leb_le. intros H.
  assert (P : forall x, 0 <= x -> 0 < 2 ^ x)
    by (intros; apply Z.pow_pos_nonneg; lia).
  destruct (Z.le_gt_cases 0 h) as [C|C].
  - rewrite (Z.max_r 0 h), (Z.max_l 0 (- h)) by lia.
    rewrite (Z.max_r 0 e), (Z.max_l 0 (- e)) in H by lia.
    assert (E : 2 ^ e = 2 ^ h * 2 ^ (e - h))
      by (rewrite <- pow2_split by lia; f_equal; lia).
    pose proof (P h ltac:(lia)). pose proof (P (e - h) ltac:(lia)).
    rewrite E in H. change (2 ^ 0) with 1 in *. nia.
  - rewrite (Z.max_l 0 h), (Z.max_r 0 (- h)) by lia.
    change (2 ^ 0) with 1.
    destruct (Z.le_gt_cases 0 e) as [C0|C0].
    + rewrite (Z.max_r 0 e), (Z.max_l 0 (- e)) in H by lia.
      change (2 ^ 0) with 1 in *.
      pose proof (P e ltac:(lia)). pose proof (P (- h) ltac:(lia)). nia.
    + rewrite (Z.max_l 0 e), (Z.max_r 0 (- e)) in H by lia.
      change (2 ^ 0) with 1 in *.
      assert (E : 2 ^ (- h) = 2 ^ (- e) * 2 ^ (e - h))
        by (rewrite <- pow2_split by lia; f_equal; lia).
      pose proof (P (- e) ltac:(lia)). pose proof (P (e - h) ltac:(lia)).
      rewrite E. nia.
Qed.

Lemma ilog2_bounds (n d lo hi : Z) :
  0 < n -> 0 < d ->
  pow2_le lo n d = true -> pow2_le hi n d = false ->
  lo <= ilog2 n d < hi.
Proof.
  intros Hn Hd Hlo Hhi. destruct (ilog2_spec n d Hn Hd) as [S0 S1].
  split.
  - destruct (Z.le_gt_cases lo (ilog2 n d)) as [|C]; [assumption|].
    rewrite (pow2_le_mono n d (ilog2 n d + 1) lo Hn Hd) in S1
      by (lia || assumption).
    discriminate.
  - destruct (Z.le_gt_cases hi (ilog2 n d)) as [C|]; [|assumption].
    rewrite (pow2_le_mono n d hi (ilog2 n d) Hn Hd C S0) in Hhi.
    discriminate.
Qed.

(** Rounding a number of the normal range: the exponent of the last place
    and the mantissa, which lies in one binade. *)
Lemma round_nearest_normal (q : Q) (lo hi : Z) :
  Qnum q <> 0 ->
  pow2_le lo (Z.abs (Qnum q)) (Z.pos (Qden q)) = true ->
  pow2_le hi (Z.abs (Qnum q)) (Z.pos (Qden q)) = false ->
  -1022 <= lo ->
  exists k,
    lo - 52 <= k < hi - 52
    /\ round_nearest q
       = (rne (Qnum q * 2 ^ Z.max 0 (- k))
              (Z.pos (Qden q) * 2 ^ Z.max 0 k), k)
    /\ Z.pos (Qden q) * 2 ^ Z.max 0 k * 2 ^ 52
       <= Z.abs (Qnum q) * 2 ^ Z.max 0 (- k)
       < Z.pos (Qden q) * 2 ^ Z.max 0 k * 2 ^ 53.
Proof.
  intros Hn Hlo Hhi Hnorm.
  assert (Hn' : 0 < Z.abs (Qnum q)) by lia.
  assert (Hd : 0 < Z.pos (Qden q)) by lia.
  pose proof (ilog2_bounds _ _ lo hi Hn' Hd Hlo Hhi) as He.
  destruct (ilog2_spec _ _ Hn' Hd) as [S0 S1].
  exists (ilog2 (Z.abs (Qnum q)) (Z.pos (Qden q)) - 52).
  split; [lia|]. split.
  - unfold round_nearest. destruct (Z.eqb_spec (Qnum q) 0); [contradiction|].
    now rewrite (Z.max_l _ (-1022)) by lia.
  - exact (mantissa_range _ _ _ Hn' Hd S0 S1).
Qed.

Lemma scale_value (m k : Z) :
  Qnum (scale m k) = m * 2 ^ Z.max 0 k
  /\ Z.pos (Qden (scale m k)) = 2 ^ Z.max 0 (- k).
Proof.
  unfold scale. cbn [Qnum Qden]. split; [reflexivity|].
  apply Z2Pos.id, pow2_pos.
Qed.

Lemma log2_mantissa (m : Z) : Z.abs m <= 2 ^ 53 -> Z.log2 (Z.abs m) <= 53.
Proof.
  intros H. apply Z.log2_le_mono in H. exact H.
Qed.

(** A number of the normal range, below the overflow threshold, is rounded
    to a finite double within half a unit in the last place: a relative
    error of at most 2^-53. *)
Lemma to_double_normal (q : Q) (lo hi : Z) :
  Qnum q <> 0 ->
  pow2_le lo (Z.abs (Qnum q)) (Z.pos (Qden q)) = true ->
  pow2_le hi (Z.abs (Qnum q)) (Z.pos (Qden q)) = false ->
  -1022 <= lo -> hi <= 1000 ->
  exists m k,
    to_double q = Finite (scale m k)
    /\ lo - 52 <= k < hi - 52
    /\ 2 * Z.abs (m * (Z.pos (Qden q) * 2 ^ Z.max 0 k)
                  - Qnum q * 2 ^ Z.max 0 (- k))
       <= Z.pos (Qden q) * 2 ^ Z.max 0 k
    /\ Z.pos (Qden q) * 2 ^ Z.max 0 k * 2 ^ 52
       <= Z.abs (Qnum q) * 2 ^ Z.max 0 (- k)
    /\ (forall i, i * (Z.pos (Qden q) * 2 ^ Z.max 0 k)
                  = Qnum q * 2 ^ Z.max 0 (- k) -> m = i).
Proof.
  intros Hn Hlo Hhi Hnorm Hmax.
  destruct (round_nearest_normal q lo hi Hn Hlo Hhi Hnorm)
    as (k & Hk & Hr & Hm0 & Hm1).
  set (D := Z.pos (Qden q) * 2 ^ Z.max 0 k) in *.
  set (N := Qnum q * 2 ^ Z.max 0 (- k)) in *.
  assert (HD : 0 < D) by (pose proof (pow2_pos k); unfold D; nia).
  pose proof (rne_error N D HD) as Herr.
  exists (rne N D), k.
  split; [|split; [exact Hk|split; [exact Herr|split; [exact Hm0|]]]].
  - unfold to_double. rewrite Hr.
    assert (HN : Z.abs N = Z.abs (Qnum q) * 2 ^ Z.max 0 (- k)).
    { unfold N. rewrite Z.abs_mul. f_equal.
      pose proof (pow2_pos (- k)). lia. }
    assert (Hm : Z.abs (rne N D) <= 2 ^ 53) by nia.
    pose proof (log2_mantissa _ Hm).
    destruct (Z.leb_spec 1024 (Z.log2 (Z.abs (rne N D)) + k)); [lia|].
    reflexivity.
  - intros i Hi. unfold N. rewrite <- Hi. now apply rne_exact.
Qed.

Lemma scale_exact (q : Q) (i k : Z) :
  i * (Z.pos (Qden q) * 2 ^ Z.max 0 k) = Qnum q * 2 ^ Z.max 0 (- k) ->
  (scale i k == q)%Q.
Proof.
  intros H. unfold Qeq. destruct (scale_value i k) as [-> ->]. lia.
Qed.

Lemma scale_close (q : Q) (m k : Z) :
  2 * Z.abs (m * (Z.pos (Qden q) * 2 ^ Z.max 0 k)
             - Qnum q * 2 ^ Z.max 0 (- k))
  <= Z.pos (Qden q) * 2 ^ Z.max 0 k ->
  Z.pos (Qden q) * 2 ^ Z.max 0 k * 2 ^ 52
  <= Z.abs (Qnum q) * 2 ^ Z.max 0 (- k) ->
  (Qabs (scale m k - q) * inject_Z (2 ^ 53) <= Qabs q)%Q.
Proof.
  intros Herr Hlo.
  pose proof (pow2_pos k) as Pk. pose proof (pow2_pos (- k)) as Pk'.
  destruct (scale_value m k) as [En Ed].
  destruct q as [n d]. cbn [Qnum Qden] in *.
  unfold Qle, Qabs, Qminus, Qplus, Qopp, Qmult, inject_Z.
  cbn [Qnum Qden]. rewrite !Pos2Z.inj_mul, En, Ed.
  set (A := 2 ^ Z.max 0 (- k)) in *. set (B := 2 ^ Z.max 0 k) in *.
  change (2 ^ 53) with (2 * 2 ^ 52). set (T := 2 ^ 52) in *.
  assert (HT : 0 < T) by reflexivity.
  replace (m * B * Z.pos d + - n * A) with (m * (Z.pos d * B) - n * A)
    by ring.
  set (E := Z.abs (m * (Z.pos d * B) - n * A)) in *.
  assert (0 <= E) by (unfold E; lia).
  assert (0 < Z.pos d) by lia.
  nia.
Qed.

Lemma to_double_zero (q : Q) :
  Qnum q = 0 -> exists q', to_double q = Finite q' /\ (q' == q)%Q.
Proof.
  intros H. exists (scale 0 0). split.
  - unfold to_double, round_nearest. rewrite H. reflexivity.
  - unfold Qeq. rewrite H. reflexivity.
Qed.

(** An integer or a half-integer of at most 53 bits is a double. *)
Lemma to_double_representable (q : Q) :
  representable q -> exists q', to_double q = Finite q' /\ (q' == q)%Q.
Proof.
  intros (M & HM & Hq). unfold double_exact in HM.
  destruct (Z.eq_dec (Qnum q) 0) as [Hz|Hnz]; [now apply to_double_zero|].
  assert (HK : exists K, 2 * Qnum q = K * Z.pos (Qden q)
                         /\ (K = M \/ K = 2 * M)).
  { destruct Hq as [Hq|Hq]; unfold Qeq in Hq; cbn in Hq.
    - exists (2 * M). split; [lia|now right].
    - exists M. split; [lia|now left]. }
  destruct HK as (K & HK & HKM).
  set (n := Qnum q) in *. set (d := Z.pos (Qden q)) in *.
  assert (Hd : 0 < d) by (unfold d; lia).
  assert (HK0 : K <> 0) by (intros ->; lia).
  assert (Habs : 2 * Z.abs n = Z.abs K * d).
  { rewrite <- (Z.abs_eq d) at 1 by lia. rewrite <- Z.abs_mul. lia. }
  destruct (to_double_normal q (-1) 54 Hnz) as (m & k & Hd' & Hk & _ & Hlo & Hi).
  - unfold pow2_le. fold n d. apply Z.leb_le.
    change (2 ^ Z.max 0 (-1)) with 1. change (2 ^ Z.max 0 (- -1)) with 2.
    nia.
  - unfold pow2_le. fold n d. apply Z.leb_gt.
    change (2 ^ Z.max 0 54) with (2 * 2 ^ 53).
    change (2 ^ Z.max 0 (Z.opp 54)) with 1.
    assert (HK2 : Z.abs K <= 2 * 2 ^ 53) by lia.
    apply (Z.mul_le_mono_nonneg_r _ _ d) in HK2; lia.
  - lia.
  - lia.
  - fold n d in Hlo, Hi.
    assert (Hex : exists i, i * (d * 2 ^ Z.max 0 k) = n * 2 ^ Z.max 0 (- k)).
    { destruct (Z.le_gt_cases k (-1)) as [C|C].
      - rewrite (Z.max_l 0 k), (Z.max_r 0 (- k)) by lia.
        exists (K * 2 ^ (- k - 1)).
        replace (- k) with (1 + (- k - 1)) at 2 by lia.
        rewrite pow2_split by lia. change (2 ^ 1) with 2.
        change (2 ^ 0) with 1. nia.
      - assert (Hk01 : k = 0 \/ k = 1) by lia.
        destruct Hk01 as [-> | ->].
        + change (2 ^ Z.max 0 0) with 1 in *.
          change (2 ^ Z.max 0 (Z.opp 0)) with 1 in *.
          destruct HKM as [->| ->].
          * assert (HM' : Z.abs M = 2 ^ 53) by nia.
            destruct (Z.abs_spec M) as [[_ E]|[_ E]]; rewrite E in HM'.
            -- exists (2 ^ 52). rewrite HM' in HK.
               change (2 ^ 53) with (2 * 2 ^ 52) in HK. lia.
            -- exists (- 2 ^ 52).
               assert (M = - 2 ^ 53) by lia. subst M.
               change (- 2 ^ 53) with (2 * - 2 ^ 52) in HK. lia.
          * exists M. lia.
        + change (2 ^ Z.max 0 1) with 2 in *.
          change (2 ^ Z.max 0 (Z.opp 1)) with 1 in *.
          assert (HK' : 2 * 2 ^ 53 <= Z.abs K) by nia.
          destruct HKM as [->| ->]; [lia|].
          assert (HM' : Z.abs M = 2 ^ 53) by lia.
          destruct (Z.abs_spec M) as [[_ E]|[_ E]]; rewrite E in HM'.
          -- exists (2 ^ 52). rewrite HM' in HK.
             change (2 ^ 53) with (2 * 2 ^ 52) in HK. lia.
          -- exists (- 2 ^ 52).
             assert (M = - 2 ^ 53) by lia. subst M.
             change (- 2 ^ 53) with (2 * - 2 ^ 52) in HK. lia. }
    destruct Hex as (i & Hi').
    exists (scale m k). split; [exact Hd'|].
    rewrite (Hi i Hi'). now apply scale_exact.
Qed.

Lemma double_value_finite (x : double) (q : Q) :
  double_value x = Some q -> x = Finite q.
Proof. destruct x; cbn; congruence. Qed.

Lemma quotient_parts (a b : Z) :
  b <> 0 ->
  Z.abs (Qnum (inject_Z a / inject_Z b)) = Z.abs a
  /\ Z.pos (Qden (inject_Z a / inject_Z b)) = Z.abs b.
Proof.
  intros Hb. destruct b as [|p|p]; [contradiction| |]; cbn; split; lia.
Qed.

Lemma to_double_quotient (a b : Z) :
  b <> 0 -> double_exact a -> double_exact b ->
  exists q,
    to_double (inject_Z a / inject_Z b) = Finite q
    /\ (representable (inject_Z a / inject_Z b) ->
        (q == inject_Z a / inject_Z b)%Q)
    /\ (Qabs (q - inject_Z a / inject_Z b) * inject_Z (2 ^ 53)
        <= Qabs (inject_Z a / inject_Z b))%Q.
Proof.
  intros Hb Ha Hb'. unfold double_exact in *.
  destruct (quotient_parts a b Hb) as [En Ed].
  set (x := (inject_Z a / inject_Z b)%Q) in *.
  destruct (Z.eq_dec (Qnum x) 0) as [Hz|Hnz].
  - destruct (to_double_zero x Hz) as (q & Hq & Hqx).
    exists q. split; [exact Hq|]. split; [now intros _|].
    assert (E : (q - x == 0)%Q) by (rewrite Hqx; ring).
    rewrite E. change (Qabs 0) with 0%Q. rewrite Qmult_0_l.
    apply Qabs_nonneg.
  - destruct (to_double_normal x (-53) 54 Hnz)
      as (m & k & Hd & _ & Herr & Hlo & _).
    + unfold pow2_le. rewrite En, Ed. apply Z.leb_le.
      change (2 ^ Z.max 0 (-53)) with 1.
      change (2 ^ Z.max 0 (- -53)) with (2 ^ 53).
      assert (1 <= Z.abs a) by lia. nia.
    + unfold pow2_le. rewrite En, Ed. apply Z.leb_gt.
      change (2 ^ Z.max 0 54) with (2 * 2 ^ 53).
      change (2 ^ Z.max 0 (Z.opp 54)) with 1.
      assert (1 <= Z.abs b) by lia. nia.
    + lia.
    + lia.
    + exists (scale m k). split; [exact Hd|]. split.
      * intros Hrep. destruct (to_double_representable x Hrep)
          as (q' & Hq' & Hqx).
        rewrite Hd in Hq'. now injection Hq' as <-.
      * now apply scale_close.
Qed.

(** The floats of CPython obey the laws. *)
Lemma binary64_laws : PyFloatLaws binary64.
Proof.
  constructor.
  - exists (1 # 2)%Q. split; reflexivity.
  - intros z Hz.
    destruct (to_double_representable (inject_Z z)) as (q & Hq & Hqz).
    { exists z. split; [exact Hz|left; reflexivity]. }
    exists (Finite q), q. cbn. rewrite Hq. auto.
  - intros a b x y Ha Hb Hrep.
    apply double_value_finite in Ha, Hb. subst a b.
    destruct (to_double_representable _ Hrep) as (q & Hq & Hqz).
    exists q. cbn. rewrite Hq. auto.
  - intros a b x y Ha Hb Hrep.
    apply double_value_finite in Ha, Hb. subst a b.
    destruct (to_double_representable _ Hrep) as (q & Hq & Hqz).
    exists q. cbn. rewrite Hq. auto.
  - intros f q Hf. cbn in *. now rewrite Hf.
  - intros f q Hf. cbn in *. now rewrite Hf.
  - intros a b Hb Ha Hb'.
    destruct (to_double_quotient a b Hb Ha Hb') as (q & Hq & Hrep & Herr).
    exists (Finite q), q. cbn. rewrite Hq. auto.
Qed.

(** ** Where the bounds end *)

(** Beyond 53 bits a double rounds.  At index and step [2^26 + 1] the
    centre of the cell is 4503599795142657.5, which no double holds: the
    code takes the floor of the even double next to it. *)
Example cell_centre_rounds :
  floor_cell_centre binary64 67108865 67108865 = Ok 4503599795142658
  /\ ((2 * 67108865 + 1) * 67108865) / 2 = 4503599795142657.
Proof. split; vm_compute; reflexivity. Qed.

(** The quotient of [2^53 + 1] by 1 is rounded to [2^53] before its
    ceiling is taken. *)
Example quotient_rounds :
  ceil_truediv binary64 (2 ^ 53 + 1) 1 = Ok (2 ^ 53)
  /\ ceil_div (2 ^ 53 + 1) 1 = 2 ^ 53 + 1.
Proof. split; vm_compute; reflexivity. Qed.

(** An integer beyond the largest double cannot enter a float expression,
    and a product that overflows has no floor. *)
Example float_overflows :
  floor_half_of binary64 (10 ^ 400) = Raise OverflowError
  /\ floor_cell_centre binary64 (10 ^ 400) 1 = Raise OverflowError
  /\ floor_cell_centre binary64 (2 ^ 1000) (2 ^ 1000) = Raise OverflowError
  /\ ceil_truediv binary64 (10 ^ 400) (-1) = Raise OverflowError
  /\ ceil_truediv binary64 1 0 = Raise ZeroDivisionError.
Proof. repeat split; vm_compute; reflexivity. Qed.

(** ** [max] *)

Lemma fold_max_ge (xs : list Z) (x : Z) : x <= fold_left Z.max xs x.
Proof.
  revert x; induction xs as [|y ys IH]; intros x; simpl; [lia|].
  specialize (IH (Z.max x y)); lia.
Qed.

Lemma fold_max_is_max (xs : list Z) (x : Z) :
  is_max_of (x :: xs) (fold_left Z.max xs x).
Proof.
  revert x; induction xs as [|y ys IH]; intros x; simpl.
  - split; [now left|]. intros z [->|[]]; lia.
  - destruct (IH (Z.max x y)) as [Hin Hub]. split.
    + destruct Hin as [Heq|Hin].
      * rewrite <- Heq. destruct (Z.max_spec x y) as [[_ ->]|[_ ->]];
          [right; now left | now left].
      * right; now right.
    + intros z [->|[->|Hz]].
      * pose proof (fold_max_ge ys (Z.max z y)); lia.
      * pose proof (fold_max_ge ys (Z.max x z)); lia.
      * apply Hub; now right.
Qed.

Lemma py_max_nonempty (xs : list Z) :
  xs <> [] -> exists m, py_max xs = Ok m /\ is_max_of xs m.
Proof.
  destruct xs as [|x xs]; [congruence|]. intros _.
  exists (fold_left Z.max xs x). split; [reflexivity|apply fold_max_is_max].
Qed.

Lemma compute_padding_nonempty (ws : list Window) :
  ws <> [] ->
  exists p0 p1, compute_padding ws = Ok (p0, p1)
                /\ is_max_of (map fst ws) p0 /\ is_max_of (map snd ws) p1.
Proof.
  intros Hne. unfold compute_padding.
  assert (E0 : map (fun w => math_ceil (inject_Z (axis w 0))) ws = map fst ws).
  { apply map_ext; intros w; apply ceil_integer. }
  assert (E1 : map (fun w => math_ceil (inject_Z (axis w 1))) ws = map snd ws).
  { apply map_ext; intros w; apply ceil_integer. }
  rewrite E0, E1.
  destruct (py_max_nonempty (map fst ws)) as (p0 & -> & H0).
  { destruct ws; [congruence|discriminate]. }
  destruct (py_max_nonempty (map snd ws)) as (p1 & -> & H1).
  { destruct ws; [congruence|discriminate]. }
  exists p0, p1. simpl. auto.
Qed.

(** ** What [load_image] leaves behind *)

Lemma load_image_padding (g : Generator) (itype : string) (ws : list Window)
    (pad : Pair) :
  compute_padding ws = Ok pad ->
  _padding (fst (load_image g itype ws)) = Some pad.
Proof.
  intros Hp. unfold load_image. rewrite Hp.
  destruct (_get_blocks _); [|reflexivity].
  destruct (copy_block _ _); [|reflexivity].
  destruct (_ itype); reflexivity.
Qed.

Lemma load_image_windows (g : Generator) (itype : string) (ws : list Window) :
  _windows (fst (load_image g itype ws)) = Some (sorted_reverse ws).
Proof.
  unfold load_image.
  destruct (compute_padding ws); [|reflexivity].
  destruct (_get_blocks _); [|reflexivity].
  destruct (copy_block _ _); [|reflexivity].
  destruct (_ itype); reflexivity.
Qed.

Lemma load_image_variant (g : Generator) (itype : string) (ws : list Window) :
  variant (fst (load_image g itype ws)) = variant g
  /\ image (fst (load_image g itype ws)) = image g.
Proof.
  unfold load_image.
  destruct (compute_padding ws); [|split; reflexivity].
  destruct (_get_blocks _); [|split; reflexivity].
  destruct (copy_block _ _); [|split; reflexivity].
  destruct (_ itype); split; reflexivity.
Qed.

(** A successful [load_image], taken apart. *)
Lemma load_image_success (g g' : Generator) (itype : string)
    (ws : list Window) :
  load_image g itype ws = (g', None) ->
  exists pad blk layers arr,
    compute_padding ws = Ok pad
    /\ _get_blocks (set_padding (set_windows g (sorted_reverse ws)) pad)
       = Ok blk
    /\ copy_block (image g) blk = Ok layers
    /\ layers itype = Some arr
    /\ g' = set_cache (set_padding (set_windows g (sorted_reverse ws)) pad)
                      itype arr.
Proof.
  unfold load_image.
  destruct (compute_padding ws) as [pad|]; [|discriminate].
  destruct (_get_blocks _) as [blk|] eqn:Hb; [|discriminate].
  simpl image.
  destruct (copy_block _ _) as [layers|] eqn:Hc; [|discriminate].
  destruct (layers itype) as [arr|] eqn:Hl; [|discriminate].
  intros [= <-]. exists pad, blk, layers, arr. auto.
Qed.

(** ** Padding (C1) *)

(** C1, as stated, fails: for the single window (4, 4) the specification's
    padding is ceil(4 / 2) = 2 per axis, while [load_image] stores 4, the
    ceiling of the whole extent. *)
Lemma padding_is_not_half_extent :
  [(4, 4)] <> ([] : list Window)
  /\ spec_half_padding [(4, 4)] = Ok (2, 2)
  /\ _padding (fst (load_image base10 "rgb" [(4, 4)]))
     = Some (4, 4).
Proof.
  split; [discriminate|]. split; reflexivity.
Qed.

(** C1, amended: for every non-empty list of window shapes passed to
    [load_image], the padding stored for each axis is the largest window
    extent on that axis (the ceiling of the whole extent, not of half of
    it); it is stored whether or not the rest of the load succeeds. *)
Theorem load_image_padding_is_max_extent :
  forall (g : Generator) (itype : string) (ws : list Window),
    ws <> [] ->
    exists p0 p1,
      _padding (fst (load_image g itype ws)) = Some (p0, p1)
      /\ is_max_of (map (fun w => math_ceil (inject_Z (fst w))) ws) p0
      /\ is_max_of (map (fun w => math_ceil (inject_Z (snd w))) ws) p1
      /\ is_max_of (map fst ws) p0
      /\ is_max_of (map snd ws) p1.
Proof.
  intros g itype ws Hne.
  destruct (compute_padding_nonempty ws Hne) as (p0 & p1 & Hp & H0 & H1).
  exists p0, p1. split; [now apply load_image_padding|].
  assert (E0 : map (fun w => math_ceil (inject_Z (fst w))) ws = map fst ws).
  { apply map_ext; intros w; apply ceil_integer. }
  assert (E1 : map (fun w => math_ceil (inject_Z (snd w))) ws = map snd ws).
  { apply map_ext; intros w; apply ceil_integer. }
  rewrite E0, E1. auto.
Qed.

Lemma load_image_padding_is_max_extent_witness :
  [(4, 4); (2, 6)] <> ([] : list Window)
  /\ exists p0 p1,
      _padding (fst (load_image base10 "rgb"
                                [(4, 4); (2, 6)])) = Some (p0, p1)
      /\ is_max_of (map (fun w => math_ceil (inject_Z (fst w)))
                        [(4, 4); (2, 6)]) p0
      /\ is_max_of (map (fun w => math_ceil (inject_Z (snd w)))
                        [(4, 4); (2, 6)]) p1
      /\ is_max_of (map fst [(4, 4); (2, 6)]) p0
      /\ is_max_of (map snd [(4, 4); (2, 6)]) p1.
Proof.
  split; [discriminate|].
  apply (load_image_padding_is_max_extent base10 "rgb"
           [(4, 4); (2, 6)]).
  discriminate.
Defined.

Lemma base10_init : Generator_init image10 = Ok base10.
Proof. reflexivity. Qed.

(** ** Slices (C8) *)

(** The slices in integer arithmetic, for use in the proofs below. *)
Lemma get_slices_in_integers (FP : PyFloat) (L : PyFloatLaws FP)
    (g : Generator) (pad index window : Pair) :
  _padding g = Some pad ->
  slices_exact g index window ->
  _get_slices FP g index window =
  Ok (match variant g with
      | Full step_size _ _ =>
          (spec_range (spec_step_mid (fst pad) (fst index) (fst step_size))
                      (fst window),
           spec_range (spec_step_mid (snd pad) (snd index) (snd step_size))
                      (snd window))
      | _ =>
          (spec_range (spec_pixel_mid (fst pad) (fst index)) (fst window),
           spec_range (spec_pixel_mid (snd pad) (snd index)) (snd window))
      end).
Proof.
  intros Hp [[Hw0 Hw1] Hcells]. unfold _get_slices. rewrite Hp.
  unfold spec_range, spec_step_mid, spec_pixel_mid. cbn [axis].
  rewrite !(floor_half_exact FP L) by assumption.
  destruct (variant g) as [| masks p samples seed | step_size offset shape];
    try reflexivity.
  destruct Hcells as [(A0 & A1 & A2) (B0 & B1 & B2)].
  rewrite !(floor_cell_centre_exact FP L) by assumption. reflexivity.
Qed.

(** Whatever the floats do, a returned range has the window's extent. *)
Lemma get_slices_extent (FP : PyFloat) (g : Generator)
    (index window : Pair) (s0 s1 : slice) :
  _get_slices FP g index window = Ok (s0, s1) ->
  slice_stop s0 = slice_start s0 + fst window
  /\ slice_stop s1 = slice_start s1 + snd window.
Proof.
  unfold _get_slices. destruct (_padding g) as [pad|]; [|discriminate].
  cbn [axis].
  destruct (variant g) as [| masks p samples seed | step_size offset shape];
    try destruct (floor_cell_centre FP (fst index) _); cbn [bind];
    try discriminate;
    destruct (floor_half_of FP (fst window)); cbn [bind]; try discriminate;
    try destruct (floor_cell_centre FP (snd index) _); cbn [bind];
    try discriminate;
    destruct (floor_half_of FP (snd window)); cbn [bind]; try discriminate;
    intros [= <- <-]; split; reflexivity.
Qed.

(** C8: with the padding set, every range [_get_slices] returns is
    half-open of the window's extent, [[start, start + window[axis])];
    and on operands for which the float expressions are exact (windows
    and steps of at most 53 bits, indices of at most 52,
    [(2 * index + 1) * step] of at most 53) it returns, on each axis, the
    range with [start = mid - floor(window[axis] / 2)], where
    [mid = padding + index] under the pixel policy (the base and the
    sampling generator) and
    [mid = padding + floor((index + 1/2) * step_size)] under the step
    policy (the sweep generator). *)
Theorem get_slices_ranges :
  forall (FP : PyFloat) (g : Generator) (pad index window : Pair),
    _padding g = Some pad ->
    (forall s0 s1,
        _get_slices FP g index window = Ok (s0, s1) ->
        slice_stop s0 = slice_start s0 + fst window
        /\ slice_stop s1 = slice_start s1 + snd window)
    /\ (PyFloatLaws FP ->
        slices_exact g index window ->
        _get_slices FP g index window =
        Ok (match variant g with
            | Full step_size _ _ =>
                (spec_range
                   (spec_step_mid (fst pad) (fst index) (fst step_size))
                   (fst window),
                 spec_range
                   (spec_step_mid (snd pad) (snd index) (snd step_size))
                   (snd window))
            | _ =>
                (spec_range (spec_pixel_mid (fst pad) (fst index))
                            (fst window),
                 spec_range (spec_pixel_mid (snd pad) (snd index))
                            (snd window))
            end)).
Proof.
  intros FP g pad index window Hp. split.
  - intros s0 s1. apply get_slices_extent.
  - intros L. now apply get_slices_in_integers.
Qed.

Lemma window_exact_small (w : Window) :
  Z.abs (fst w) <= 1000 -> Z.abs (snd w) <= 1000 -> window_exact w.
Proof. unfold window_exact, double_exact. lia. Qed.

Lemma get_slices_ranges_witness :
  _get_slices binary64 (fst (load_image sweep5 "rgb" [(4, 4)]))
              (1, 2) (4, 4)
  = Ok (mk_slice 5 9, mk_slice 7 11).
Proof.
  apply (proj2 (get_slices_ranges binary64
                  (fst (load_image sweep5 "rgb" [(4, 4)]))
                  (4, 4) (1, 2) (4, 4) eq_refl) binary64_laws).
  split; [apply window_exact_small; simpl; lia|].
  unfold cell_exact, double_exact; simpl; lia.
Defined.

(** ** Blocks (C9) *)

(** C9: a successful load materialises, through [copy_block], the block
    [[-pad, raster_extent + pad)] per axis for the pixel-indexed variants
    and [[offset*step - pad, offset*step + pad + shape*step)] per axis
    for the grid-indexed variant, where [pad] is the stored padding; that
    block is also what [_get_blocks] answers afterwards. *)
Theorem loaded_block_range :
  forall (g g' : Generator) (itype : string) (ws : list Window),
    load_image g itype ws = (g', None) ->
    exists pad layers arr,
      let blk :=
        match variant g with
        | Full step_size offset shape =>
            spec_grid_block pad step_size offset shape
        | _ => spec_pixel_block pad (img_shape (image g))
        end in
      _padding g' = Some pad
      /\ _get_blocks g' = Ok blk
      /\ copy_block (image g) blk = Ok layers
      /\ layers itype = Some arr
      /\ _image_cache g' = Some arr.
Proof.
  intros g g' itype ws Hload.
  destruct (load_image_success _ _ _ _ Hload)
    as (pad & blk & layers & arr & Hp & Hb & Hc & Hl & ->).
  exists pad, layers, arr. cbv zeta.
  assert (Hblk : blk = match variant g with
                       | Full step_size offset shape =>
                           spec_grid_block pad step_size offset shape
                       | _ => spec_pixel_block pad (img_shape (image g))
                       end).
  { unfold _get_blocks in Hb. simpl in Hb.
    destruct (variant g); injection Hb as <-; reflexivity. }
  rewrite <- Hblk. repeat split; auto.
Qed.

Lemma loaded_block_range_witness :
  exists g',
    load_image base10 "rgb" [(4, 4)] = (g', None)
    /\ exists pad layers arr,
      _padding g' = Some pad
      /\ _get_blocks g' = Ok (spec_pixel_block pad (10, 10))
      /\ copy_block image10 (spec_pixel_block pad (10, 10)) = Ok layers
      /\ layers "rgb"%string = Some arr
      /\ _image_cache g' = Some arr.
Proof.
  eexists. split; [reflexivity|].
  exact (loaded_block_range base10 _ "rgb" [(4, 4)]
           eq_refl).
Defined.

(** ** Default shape of the sweep generator (C10) *)

(** C10: constructed with a falsy [shape], with positive steps and image
    extents of at most 53 bits, on an image that answers the constructor,
    the sweep generator takes the shape [ceil(image_extent / step_size)]
    per axis: the fewest steps that cover the raster. *)
Theorem default_shape_covers_raster :
  forall (FP : PyFloat) (img : Image) (step_size offset : Pair)
         (shape : ShapeArg) (c : Crs) (t : Transform),
    PyFloatLaws FP ->
    truthy shape = false ->
    image_answers img step_size c t ->
    0 < fst step_size <= 2 ^ 53 -> 0 < snd step_size <= 2 ^ 53 ->
    Z.abs (fst (img_shape img)) < 2 ^ 53 ->
    Z.abs (snd (img_shape img)) < 2 ^ 53 ->
    exists g,
      FullGenerator_init FP img step_size offset shape = Ok g
      /\ variant g =
         Full step_size offset
              (ceil_div (fst (img_shape img)) (fst step_size),
               ceil_div (snd (img_shape img)) (snd step_size))
      /\ _image_cache g = None
      /\ (ceil_div (fst (img_shape img)) (fst step_size) - 1) * fst step_size
         < fst (img_shape img)
         <= ceil_div (fst (img_shape img)) (fst step_size) * fst step_size
      /\ (ceil_div (snd (img_shape img)) (snd step_size) - 1) * snd step_size
         < snd (img_shape img)
         <= ceil_div (snd (img_shape img)) (snd step_size) * snd step_size.
Proof.
  intros FP img step_size offset shape c t L Hfalsy (Hc & (t0 & Ht0) & Ht)
         H0 H1 E0 E1.
  assert (Hinit : FullGenerator_init FP img step_size offset shape =
                  FullGenerator_init FP img step_size offset ShapeNone).
  { destruct shape; [reflexivity|reflexivity|discriminate]. }
  rewrite Hinit. unfold FullGenerator_init, Generator_init.
  rewrite Hc, Ht0. cbn [bind axis].
  rewrite !(ceil_truediv_exact FP L) by lia. cbn [bind]. rewrite Ht.
  cbn [bind]. eexists. split; [reflexivity|]. cbn [variant _image_cache unloaded].
  split; [reflexivity|]. split; [reflexivity|].
  split; apply ceil_div_bounds; lia.
Qed.

Lemma raster_image_answers (shape : Pair) (pix : Z -> Z -> Z)
    (step_size : Pair) :
  image_answers (raster_image shape pix) step_size
                "EPSG:4326"%string "scaled"%string.
Proof. repeat split. now exists "identity"%string. Qed.

Lemma default_shape_covers_raster_witness :
  exists g,
    FullGenerator_init binary64 image10 (3, 4) (0, 0) ShapeNone = Ok g
    /\ variant g = Full (3, 4) (0, 0) (4, 3).
Proof.
  destruct (default_shape_covers_raster binary64 image10 (3, 4) (0, 0)
              ShapeNone "EPSG:4326"%string "scaled"%string binary64_laws eq_refl
              (raster_image_answers _ _ _))
    as (g & Hg & Hv & _); try (simpl; lia).
  exists g. split; assumption.
Defined.

(** ** Windows stay inside the cache (C7) *)

Lemma slice_length_inside (start stop n : Z) :
  0 <= start -> start <= stop -> stop <= n ->
  slice_indices (mk_slice start stop) n = (start, stop)
  /\ slice_length (mk_slice start stop) n = stop - start.
Proof.
  intros H0 H1 H2. unfold slice_length, slice_indices, clip_bound. simpl.
  destruct (Z.ltb_spec start 0); [lia|].
  destruct (Z.ltb_spec stop 0); [lia|].
  rewrite !Z.min_l by lia. split; [reflexivity|lia].
Qed.

Lemma range_inside_pixel (pad index w extent : Z) :
  0 <= w -> w <= pad -> 0 <= index < extent ->
  0 <= slice_start (spec_range (spec_pixel_mid pad index) w)
  /\ slice_start (spec_range (spec_pixel_mid pad index) w)
     <= slice_stop (spec_range (spec_pixel_mid pad index) w)
  /\ slice_stop (spec_range (spec_pixel_mid pad index) w)
     <= (extent + pad) - (- pad).
Proof.
  intros Hw Hp Hi. unfold spec_range, spec_pixel_mid.
  cbn [slice_start slice_stop]. Z.div_mod_to_equations. lia.
Qed.

Lemma range_inside_step (pad index w step shape o : Z) :
  0 <= w -> w <= pad -> 0 <= step -> 0 <= index < shape ->
  0 <= slice_start (spec_range (spec_step_mid pad index step) w)
  /\ slice_start (spec_range (spec_step_mid pad index step) w)
     <= slice_stop (spec_range (spec_step_mid pad index step) w)
  /\ slice_stop (spec_range (spec_step_mid pad index step) w)
     <= (o + pad + shape * step) - (o - pad).
Proof.
  intros Hw Hp Hs Hi. unfold spec_range, spec_step_mid.
  cbn [slice_start slice_stop].
  assert (0 <= (2 * index + 1) * step) by nia.
  assert ((2 * index + 1) * step <= 2 * (shape * step)) by nia.
  Z.div_mod_to_equations. lia.
Qed.

Lemma spec_range_length (mid w : Z) :
  slice_stop (spec_range mid w) - slice_start (spec_range mid w) = w.
Proof. unfold spec_range; cbn [slice_start slice_stop]; lia. Qed.

(** Inside the grid of a sweep the float expressions are exact. *)
Lemma cell_exact_in_grid (i s R : Z) :
  0 <= i < R -> 0 <= s -> R <= 2 ^ 52 -> s <= 2 ^ 53 ->
  2 * (R * s) <= 2 ^ 53 ->
  cell_exact i s.
Proof.
  intros Hi Hs HR Hs' HRs. unfold cell_exact, double_exact.
  split; [lia|]. split; [lia|].
  assert (0 <= (2 * i + 1) * s) by nia.
  assert ((2 * i + 1) * s <= 2 * (R * s)) by nia.
  lia.
Qed.

Lemma slices_exact_in_shape (g : Generator) (index : Pair) (w : Window) :
  window_exact w -> steps_nonnegative g -> grid_exact g ->
  in_logical_shape g index ->
  slices_exact g index w.
Proof.
  intros Hw Hsteps Hgrid Hidx. split; [exact Hw|].
  unfold steps_nonnegative, grid_exact, in_logical_shape in *.
  destruct (variant g) as [| |step_size offset shape]; try exact I.
  destruct Hgrid as [(A0 & A1 & A2) (B0 & B1 & B2)].
  destruct Hsteps as [S0 S1]. destruct Hidx as [I0 I1].
  split.
  - exact (cell_exact_in_grid _ _ _ I0 S0 A0 A1 A2).
  - exact (cell_exact_in_grid _ _ _ I1 S1 B0 B1 B2).
Qed.

(** The slices of a configured window at an index inside the shape, after
    a successful load: inside the cached block, of the window's lengths,
    and starting at the window's origin in the raster. *)
Lemma loaded_slices (FP : PyFloat) (L : PyFloatLaws FP) (g : Generator)
    (itype : string) (ws : list Window)
    (pad : Pair) (blk : Block) (arr : ndarray) (i j : Z) (w : Window) :
  compute_padding ws = Ok pad ->
  _get_blocks (set_padding (set_windows g (sorted_reverse ws)) pad) = Ok blk ->
  arr_shape arr = block_extent blk ->
  In w ws -> 0 <= fst w -> 0 <= snd w -> window_exact w ->
  steps_nonnegative g -> grid_exact g -> in_logical_shape g (i, j) ->
  exists s0 s1,
    _get_slices FP (set_cache (set_padding (set_windows g (sorted_reverse ws))
                                           pad) itype arr) (i, j) w
    = Ok (s0, s1)
    /\ 0 <= slice_start s0 <= slice_stop s0
    /\ slice_stop s0 <= fst (arr_shape arr)
    /\ 0 <= slice_start s1 <= slice_stop s1
    /\ slice_stop s1 <= snd (arr_shape arr)
    /\ slice_stop s0 - slice_start s0 = fst w
    /\ slice_stop s1 - slice_start s1 = snd w
    /\ fst (fst blk) + slice_start s0 = fst (window_origin g (i, j) w)
    /\ fst (snd blk) + slice_start s1 = snd (window_origin g (i, j) w).
Proof.
  intros Hp Hb Hshape Hin Hw0 Hw1 Hwe Hsteps Hgrid Hidx.
  pose proof (slices_exact_in_shape g (i, j) w Hwe Hsteps Hgrid Hidx) as Hex.
  destruct w as [w0 w1].
  cbn [fst snd] in Hw0, Hw1.
  assert (Hne : ws <> []) by (intros ->; contradiction).
  destruct (compute_padding_nonempty ws Hne) as (p0 & p1 & Hp' & H0 & H1).
  rewrite Hp in Hp'. injection Hp' as ->.
  assert (Hp0 : w0 <= p0).
  { apply (proj2 H0). change w0 with (fst (w0, w1)). now apply in_map. }
  assert (Hp1 : w1 <= p1).
  { apply (proj2 H1). change w1 with (snd (w0, w1)). now apply in_map. }
  set (g2 := set_cache _ itype arr).
  assert (Hpad : _padding g2 = Some (p0, p1)) by reflexivity.
  pose proof (get_slices_in_integers FP L g2 (p0, p1) (i, j) (w0, w1) Hpad Hex)
    as Hs.
  assert (Hv : variant g2 = variant g) by reflexivity.
  rewrite Hv in Hs.
  unfold _get_blocks in Hb.
  cbn [_padding set_padding set_windows variant image] in Hb.
  unfold in_logical_shape in Hidx. unfold steps_nonnegative in Hsteps.
  unfold window_origin.
  cbn [fst snd] in Hs, Hidx. rewrite Hshape.
  destruct (variant g) as [| masks p samples seed | step_size offset shape];
    injection Hb as <-; unfold block_extent; cbn [fst snd axis];
    do 2 eexists; (split; [exact Hs|]); rewrite !spec_range_length.
  - pose proof (range_inside_pixel p0 i w0 _ Hw0 Hp0 (proj1 Hidx)).
    pose proof (range_inside_pixel p1 j w1 _ Hw1 Hp1 (proj2 Hidx)).
    unfold spec_range, spec_pixel_mid in *; cbn [slice_start slice_stop] in *.
    repeat split; lia.
  - pose proof (range_inside_pixel p0 i w0 _ Hw0 Hp0 (proj1 Hidx)).
    pose proof (range_inside_pixel p1 j w1 _ Hw1 Hp1 (proj2 Hidx)).
    unfold spec_range, spec_pixel_mid in *; cbn [slice_start slice_stop] in *.
    repeat split; lia.
  - pose proof (range_inside_step p0 i w0 (fst step_size) (fst shape)
                (fst offset * fst step_size) Hw0 Hp0 (proj1 Hsteps)
                (proj1 Hidx)).
    pose proof (range_inside_step p1 j w1 (snd step_size) (snd shape)
                (snd offset * snd step_size) Hw1 Hp1 (proj2 Hsteps)
                (proj2 Hidx)).
    unfold spec_range, spec_step_mid in *; cbn [slice_start slice_stop] in *.
    repeat split; lia.
Qed.

(** What indexing returns for slices inside the cache. *)
Lemma getitem_entries (FP : PyFloat) (g : Generator) (cache : ndarray)
    (i j : Z) (window : Window) (s0 s1 : slice) :
  _get_slices FP g (i, j) window = Ok (s0, s1) ->
  _image_cache g = Some cache ->
  0 <= slice_start s0 <= slice_stop s0 ->
  slice_stop s0 <= fst (arr_shape cache) ->
  0 <= slice_start s1 <= slice_stop s1 ->
  slice_stop s1 <= snd (arr_shape cache) ->
  exists a,
    __getitem__ FP g (i, j, window) = Ok a
    /\ arr_shape a = (slice_stop s0 - slice_start s0,
                      slice_stop s1 - slice_start s1)
    /\ forall r c, arr_at a r c
                   = arr_at cache (slice_start s0 + r) (slice_start s1 + c).
Proof.
  intros Hs Hc [A0 A1] A2 [B0 B1] B2.
  unfold __getitem__. rewrite Hs, Hc. cbn [bind fst snd].
  eexists. split; [reflexivity|].
  unfold ndarray_getitem; cbn [arr_shape arr_at].
  destruct s0 as [a0 b0], s1 as [a1 b1]; cbn [slice_start slice_stop] in *.
  rewrite (proj2 (slice_length_inside a0 b0 _ A0 A1 A2)).
  rewrite (proj2 (slice_length_inside a1 b1 _ B0 B1 B2)).
  rewrite (proj1 (slice_length_inside a0 b0 _ A0 A1 A2)).
  rewrite (proj1 (slice_length_inside a1 b1 _ B0 B1 B2)).
  split; reflexivity.
Qed.

(** C7: after a successful load from an image that materialises blocks at
    their own size, for every index inside the logical shape and every
    configured window (of non-negative extents of at most 53 bits; steps
    non-negative and the swept extent of at most 52 bits, so that the
    float expressions are exact), the slice ranges lie within the cached
    block on both axes and the sub-array returned by indexing has exactly
    the window's shape. *)
Theorem window_within_cache :
  forall (FP : PyFloat) (g g' : Generator) (itype : string)
         (ws : list Window) (index : Pair) (window : Window),
    PyFloatLaws FP ->
    copies_whole_blocks (image g) ->
    load_image g itype ws = (g', None) ->
    In window ws ->
    0 <= fst window -> 0 <= snd window -> window_exact window ->
    steps_nonnegative g -> grid_exact g ->
    in_logical_shape g index ->
    exists s0 s1 cache a,
      _get_slices FP g' index window = Ok (s0, s1)
      /\ _image_cache g' = Some cache
      /\ 0 <= slice_start s0 <= slice_stop s0
      /\ slice_stop s0 <= fst (arr_shape cache)
      /\ 0 <= slice_start s1 <= slice_stop s1
      /\ slice_stop s1 <= snd (arr_shape cache)
      /\ __getitem__ FP g' (fst index, snd index, window) = Ok a
      /\ arr_shape a = window.
Proof.
  intros FP g g' itype ws [i j] w L Himg Hload Hin Hw0 Hw1 Hwe Hsteps Hgrid
         Hidx.
  destruct (load_image_success _ _ _ _ Hload)
    as (pad & blk & layers & arr & Hp & Hb & Hc & Hl & ->).
  pose proof (Himg _ _ _ _ Hc Hl) as Hshape.
  destruct (loaded_slices FP L g itype ws pad blk arr i j w Hp Hb Hshape Hin
              Hw0 Hw1 Hwe Hsteps Hgrid Hidx)
    as (s0 & s1 & Hs & A & A' & B & B' & L0 & L1 & _ & _).
  destruct (getitem_entries FP _ arr i j w s0 s1 Hs eq_refl A A' B B')
    as (a & Ha & Hsh & _).
  exists s0, s1, arr, a. cbn [fst snd]. rewrite Hsh, L0, L1.
  destruct w. cbn [fst snd]. auto 10.
Qed.

Lemma raster_image_copies_whole_blocks (shape : Pair) (pix : Z -> Z -> Z) :
  copies_whole_blocks (raster_image shape pix).
Proof.
  intros b layers key arr [= <-]. destruct (String.eqb key "rgb"); [|discriminate].
  now intros [= <-].
Qed.


Lemma window_within_cache_witness :
  exists s0 s1 cache a,
    _get_slices binary64 (fst (load_image base10 "rgb" [(4, 4)]))
                (0, 0) (4, 4) = Ok (s0, s1)
    /\ _image_cache (fst (load_image base10 "rgb" [(4, 4)])) = Some cache
    /\ 0 <= slice_start s0 <= slice_stop s0
    /\ slice_stop s0 <= fst (arr_shape cache)
    /\ 0 <= slice_start s1 <= slice_stop s1
    /\ slice_stop s1 <= snd (arr_shape cache)
    /\ __getitem__ binary64 (fst (load_image base10 "rgb" [(4, 4)]))
                   (0, 0, (4, 4)) = Ok a
    /\ arr_shape a = (4, 4).
Proof.
  apply (window_within_cache binary64 base10 _ "rgb" [(4, 4)]
           (0, 0) (4, 4) binary64_laws).
  - apply raster_image_copies_whole_blocks.
  - reflexivity.
  - simpl; auto.
  - simpl; lia.
  - simpl; lia.
  - apply window_exact_small; simpl; lia.
  - exact I.
  - exact I.
  - unfold in_logical_shape; simpl; lia.
Defined.

(** ** Generator traces *)

Lemma for_each_yields {X A} (xs : list X) (body : X -> Trace A)
    (f : X -> list A) :
  (forall x, In x xs -> body x = (f x, None)) ->
  for_each xs body = (flat_map f xs, None).
Proof.
  induction xs as [|x xs IH]; intros Hbody; [reflexivity|].
  cbn [for_each flat_map]. rewrite (Hbody x (or_introl eq_refl)).
  rewrite IH by (intros y Hy; apply Hbody; now right). reflexivity.
Qed.

Lemma flat_map_singleton {X A} (f : X -> A) (xs : list X) :
  flat_map (fun x => [f x]) xs = map f xs.
Proof. induction xs; simpl; congruence. Qed.

Lemma for_each_yield_map {X A} (xs : list X) (body : X -> Trace A)
    (f : X -> A) :
  (forall x, In x xs -> body x = yield (f x)) ->
  for_each xs body = (map f xs, None).
Proof.
  intros Hbody. rewrite <- flat_map_singleton.
  now apply for_each_yields.
Qed.

Lemma length_flat_map_const {X A} (f : X -> list A) (xs : list X) (n : nat) :
  (forall x, In x xs -> List.length (f x) = n) ->
  List.length (flat_map f xs) = (List.length xs * n)%nat.
Proof.
  induction xs as [|x xs IH]; intros Hf; [reflexivity|].
  cbn [flat_map List.length]. rewrite length_app, Hf, IH; [lia| |now left].
  intros y Hy; apply Hf; now right.
Qed.

Lemma length_range (n : Z) : List.length (range n) = Z.to_nat n.
Proof. unfold range. now rewrite length_map, length_seq. Qed.

Lemma in_range (n k : Z) : In k (range n) <-> 0 <= k < n.
Proof.
  unfold range. rewrite in_map_iff. split.
  - intros (m & <- & Hm). apply in_seq in Hm. lia.
  - intros Hk. exists (Z.to_nat k). split; [lia|]. apply in_seq. lia.
Qed.

Lemma nth_error_range (n : Z) (k : nat) :
  (k < Z.to_nat n)%nat -> nth_error (range n) k = Some (Z.of_nat k).
Proof.
  intros Hk. unfold range. rewrite nth_error_map, nth_error_seq.
  destruct (Nat.ltb_spec k (Z.to_nat n)); [reflexivity|lia].
Qed.

(** ** [sorted(windows, reverse=True)] *)

Lemma tuple_ltb_spec (a b : Pair) :
  tuple_ltb a b = true
  <-> fst a < fst b \/ (fst a = fst b /\ snd a < snd b).
Proof.
  unfold tuple_ltb.
  rewrite orb_true_iff, andb_true_iff, !Z.ltb_lt, Z.eqb_eq. tauto.
Qed.

Lemma tuple_ge_spec (a b : Pair) :
  tuple_ge a b <-> fst b < fst a \/ (fst a = fst b /\ snd b <= snd a).
Proof.
  unfold tuple_ge. rewrite <- not_true_iff_false, tuple_ltb_spec. lia.
Qed.

Lemma insert_desc_perm (x : Pair) (l : list Pair) :
  Permutation (insert_desc x l) (x :: l).
Proof.
  induction l as [|y l IH]; simpl; [reflexivity|].
  destruct (tuple_ltb x y); [|reflexivity].
  rewrite IH. apply perm_swap.
Qed.

Lemma sorted_reverse_perm (ws : list Pair) : Permutation (sorted_reverse ws) ws.
Proof.
  induction ws as [|w ws IH]; simpl; [constructor|].
  rewrite insert_desc_perm. now constructor.
Qed.

Lemma insert_desc_sorted (x : Pair) (l : list Pair) :
  StronglySorted tuple_ge l -> StronglySorted tuple_ge (insert_desc x l).
Proof.
  induction l as [|y l IH]; intros Hs; simpl.
  - repeat constructor.
  - inversion Hs as [|? ? Hs' Hall]; subst.
    destruct (tuple_ltb x y) eqn:Hxy.
    + constructor; [now apply IH|].
      apply Forall_forall. intros z Hz.
      apply (Permutation_in _ (insert_desc_perm x l)) in Hz.
      destruct Hz as [<-|Hz].
      * apply tuple_ltb_spec in Hxy. apply tuple_ge_spec. lia.
      * rewrite Forall_forall in Hall. now apply Hall.
    + constructor; [exact Hs|].
      constructor; [exact Hxy|].
      apply Forall_forall. intros z Hz. rewrite Forall_forall in Hall.
      specialize (Hall z Hz). apply tuple_ge_spec in Hall.
      assert (Hxy' : tuple_ge x y) by exact Hxy.
      apply tuple_ge_spec in Hxy'. apply tuple_ge_spec. lia.
Qed.

Lemma sorted_reverse_sorted (ws : list Pair) :
  StronglySorted tuple_ge (sorted_reverse ws).
Proof.
  induction ws as [|w ws IH]; simpl; [constructor|].
  now apply insert_desc_sorted.
Qed.

Lemma sorted_reverse_length (ws : list Pair) :
  List.length (sorted_reverse ws) = List.length ws.
Proof. apply Permutation_length, sorted_reverse_perm. Qed.

(** ** Indexing a loaded generator *)

Lemma getitem_loaded (FP : PyFloat) (L : PyFloatLaws FP) (g : Generator)
    (pad : Pair) (cache : ndarray) (i j : Z) (w : Window) :
  _padding g = Some pad -> _image_cache g = Some cache ->
  slices_exact g (i, j) w ->
  exists a, __getitem__ FP g (i, j, w) = Ok a.
Proof.
  intros Hp Hc Hex. unfold __getitem__.
  rewrite (get_slices_in_integers FP L g pad (i, j) w Hp Hex), Hc.
  cbn [bind]. eexists; reflexivity.
Qed.

Lemma getitem_item_at (FP : PyFloat) (L : PyFloatLaws FP) (g : Generator)
    (pad : Pair) (cache : ndarray) (i j : Z) (w : Window) :
  _padding g = Some pad -> _image_cache g = Some cache ->
  slices_exact g (i, j) w ->
  __getitem__ FP g (i, j, w) = Ok (item_at FP g i j w).
Proof.
  intros Hp Hc Hex. unfold item_at.
  destruct (getitem_loaded FP L g pad cache i j w Hp Hc Hex) as (a & ->).
  reflexivity.
Qed.

(** ** Sweep iteration (C4) *)

Lemma sweep_trace_exact (FP : PyFloat) (L : PyFloatLaws FP) (g : Generator)
    (pad : Pair) (cache : ndarray)
    (ws : list Window) (step_size offset shape : Pair) :
  _padding g = Some pad -> _image_cache g = Some cache ->
  _windows g = Some ws -> variant g = Full step_size offset shape ->
  (forall i j w, 0 <= i < fst shape -> 0 <= j < snd shape -> In w ws ->
                 slices_exact g (i, j) w) ->
  (forall i j w, 0 <= i < fst shape -> 0 <= j < snd shape -> In w ws ->
                 __getitem__ FP g (i, j, w) = Ok (item_at FP g i j w))
  /\ FullGenerator_iter FP g =
     (flat_map (fun i =>
        flat_map (fun j => map (item_at FP g i j) ws) (range (snd shape)))
        (range (fst shape)), None).
Proof.
  intros Hp Hc Hw Hv Hex.
  assert (Hitem : forall i j w,
             0 <= i < fst shape -> 0 <= j < snd shape -> In w ws ->
             __getitem__ FP g (i, j, w) = Ok (item_at FP g i j w)).
  { intros i j w Hi Hj Hin.
    apply (getitem_item_at FP L g pad cache i j w Hp Hc). now apply Hex. }
  split; [exact Hitem|].
  unfold FullGenerator_iter. rewrite Hc, Hv, Hw.
  cbn [axis]. apply for_each_yields. intros i Hi.
  apply for_each_yields. intros j Hj.
  apply for_each_yield_map. intros w Hin.
  apply in_range in Hi. apply in_range in Hj.
  now rewrite Hitem.
Qed.

Lemma sweep_trace (FP : PyFloat) (L : PyFloatLaws FP) (g : Generator)
    (pad : Pair) (cache : ndarray)
    (ws : list Window) (step_size offset shape : Pair) :
  _padding g = Some pad -> _image_cache g = Some cache ->
  _windows g = Some ws -> variant g = Full step_size offset shape ->
  steps_nonnegative g -> grid_exact g -> Forall window_exact ws ->
  (forall i j w, 0 <= i < fst shape -> 0 <= j < snd shape -> In w ws ->
                 __getitem__ FP g (i, j, w) = Ok (item_at FP g i j w))
  /\ FullGenerator_iter FP g =
     (flat_map (fun i =>
        flat_map (fun j => map (item_at FP g i j) ws) (range (snd shape)))
        (range (fst shape)), None).
Proof.
  intros Hp Hc Hw Hv Hsteps Hgrid Hws.
  apply (sweep_trace_exact FP L g pad cache ws _ _ _ Hp Hc Hw Hv).
  intros i j w Hi Hj Hin.
  apply slices_exact_in_shape; auto.
  - rewrite Forall_forall in Hws. now apply Hws.
  - unfold in_logical_shape. rewrite Hv. cbn [fst snd]. auto.
Qed.

(** A sweep over no cell, or with no window, indexes nothing. *)
Lemma sweep_empty (FP : PyFloat) (g : Generator) (cache : ndarray)
    (ws : list Window) (step_size offset shape : Pair) :
  _image_cache g = Some cache ->
  _windows g = Some ws -> variant g = Full step_size offset shape ->
  fst shape <= 0 \/ snd shape <= 0 \/ ws = [] ->
  FullGenerator_iter FP g = finished.
Proof.
  intros Hc Hw Hv Hempty.
  unfold FullGenerator_iter. rewrite Hc, Hv, Hw. cbn [axis].
  assert (Hnil : forall {X} (xs : list X),
             flat_map (fun _ : X => @nil ndarray) xs = []).
  { intros X xs. induction xs; [reflexivity|exact IHxs]. }
  destruct Hempty as [HR|[HC| ->]].
  - unfold range. now replace (Z.to_nat (fst shape)) with 0%nat by lia.
  - unfold range at 2. replace (Z.to_nat (snd shape)) with 0%nat by lia.
    cbn [seq map for_each].
    rewrite (for_each_yields _ _ (fun _ => [])) by reflexivity.
    now rewrite Hnil.
  - rewrite (for_each_yields _ _ (fun _ => [])).
    + now rewrite Hnil.
    + intros i _. rewrite (for_each_yields _ _ (fun _ => [])) by reflexivity.
      now rewrite Hnil.
Qed.

(** C4, as stated, fails: the stored order is not by size.  For the
    windows (2, 100) and (3, 1) the sweep stores, and yields in every
    cell, the window of 3 entries before the window of 200. *)
Lemma windows_not_stored_by_size :
  snd (load_image sweep5 "rgb" [(2, 100); (3, 1)]) = None
  /\ _windows (fst (load_image sweep5 "rgb" [(2, 100); (3, 1)]))
     = Some [(3, 1); (2, 100)]
  /\ map arr_shape
         (firstn 2 (fst (FullGenerator_iter binary64
                           (fst (load_image sweep5 "rgb"
                                            [(2, 100); (3, 1)])))))
     = [(3, 1); (2, 100)]
  /\ window_size (3, 1) < window_size (2, 100)
  /\ ~ descending_size [(3, 1); (2, 100)].
Proof.
  split; [reflexivity|]. split; [reflexivity|]. split; [reflexivity|].
  split; [reflexivity|].
  intros H. inversion H as [|? ? _ Hall]; subst.
  inversion Hall as [|? ? Hle _]; subst. cbv in Hle. now apply Hle.
Qed.

(** C4, amended: after a successful load of a sweep generator of shape
    (R, C) with the window list [ws] (steps non-negative; swept extents
    of at most 52 bits and window extents of at most 53, so that the
    float expressions are exact), the stored windows are [ws] sorted in
    descending tuple order (by rows, then by columns: not by size), and
    iteration yields, for the cells (i, j) in row-major order over
    [0, R) x [0, C), the sub-array of each stored window in the stored
    order: R * C * W items in all, and no exception. *)
Theorem sweep_yields_all_cells_in_order :
  forall (FP : PyFloat) (g g' : Generator) (itype : string)
         (ws : list Window) (step_size offset : Pair) (R C : Z),
    PyFloatLaws FP ->
    load_image g itype ws = (g', None) ->
    variant g = Full step_size offset (R, C) ->
    0 <= R -> 0 <= C ->
    steps_nonnegative g -> grid_exact g -> Forall window_exact ws ->
    exists stored,
      _windows g' = Some stored
      /\ Permutation stored ws
      /\ StronglySorted tuple_ge stored
      /\ (forall i j w, 0 <= i < R -> 0 <= j < C -> In w stored ->
            __getitem__ FP g' (i, j, w) = Ok (item_at FP g' i j w))
      /\ FullGenerator_iter FP g' =
         (flat_map (fun i =>
            flat_map (fun j => map (item_at FP g' i j) stored) (range C))
            (range R), None)
      /\ len (fst (FullGenerator_iter FP g')) = R * C * len ws.
Proof.
  intros FP g g' itype ws step_size offset R C L Hload Hv HR HC Hsteps Hgrid
         Hws.
  destruct (load_image_success _ _ _ _ Hload)
    as (pad & blk & layers & arr & Hp & Hb & Hc & Hl & ->).
  set (g' := set_cache _ itype arr).
  assert (Hpad : _padding g' = Some pad) by reflexivity.
  assert (Hcache : _image_cache g' = Some arr) by reflexivity.
  assert (Hwin : _windows g' = Some (sorted_reverse ws)) by reflexivity.
  assert (Hv' : variant g' = Full step_size offset (R, C)) by exact Hv.
  assert (Hsorted : Forall window_exact (sorted_reverse ws)).
  { rewrite Forall_forall in *. intros w Hw. apply Hws.
    now apply (Permutation_in _ (sorted_reverse_perm ws)). }
  exists (sorted_reverse ws).
  destruct (sweep_trace FP L g' pad arr _ _ _ _ Hpad Hcache Hwin Hv' Hsteps
              Hgrid Hsorted) as [Hitem Ht].
  cbn [fst snd] in Ht, Hitem.
  split; [reflexivity|].
  split; [apply sorted_reverse_perm|].
  split; [apply sorted_reverse_sorted|].
  split; [exact Hitem|].
  split; [exact Ht|].
  rewrite Ht. cbn [fst]. unfold len.
  rewrite (length_flat_map_const _ _
             (Z.to_nat C * List.length ws)%nat).
  - rewrite length_range. lia.
  - intros i _.
    rewrite (length_flat_map_const _ _ (List.length ws)).
    + now rewrite length_range.
    + intros j _. now rewrite length_map, sorted_reverse_length.
Qed.

Lemma sweep5_init :
  FullGenerator_init binary64 image10 (2, 2) (0, 0) (ShapePair (5, 5))
  = Ok sweep5.
Proof. reflexivity. Qed.

Lemma sweep_yields_all_cells_in_order_witness :
  exists stored,
    _windows (fst (load_image sweep5 "rgb" [(2, 2); (4, 4)])) = Some stored
    /\ stored = [(4, 4); (2, 2)]
    /\ len (fst (FullGenerator_iter binary64
                   (fst (load_image sweep5 "rgb" [(2, 2); (4, 4)]))))
       = 5 * 5 * 2.
Proof.
  destruct (sweep_yields_all_cells_in_order binary64 sweep5 _ "rgb"
              [(2, 2); (4, 4)] (2, 2) (0, 0) 5 5 binary64_laws
              eq_refl eq_refl ltac:(lia) ltac:(lia))
    as (stored & Hst & _ & _ & _ & _ & Hlen).
  - unfold steps_nonnegative; simpl; lia.
  - unfold grid_exact; simpl; lia.
  - repeat constructor; apply window_exact_small; simpl; lia.
  - exists stored. split; [exact Hst|]. split; [|exact Hlen].
    injection Hst as <-. reflexivity.
Defined.

(** ** Splitting (C5) *)

Lemma split_chunk_size (FP : PyFloat) (g : Generator)
    (step_size offset shape : Pair) (n cs : Z) :
  variant g = Full step_size offset shape ->
  ceil_truediv FP (fst shape) n = Ok cs ->
  split FP g n = split_jobs FP g step_size offset shape cs (range n).
Proof.
  intros Hv Hcs. unfold split. rewrite Hv. cbn [axis]. now rewrite Hcs.
Qed.

(** No job yields a sub-generator once the rows are used up. *)
Lemma split_jobs_none (FP : PyFloat) (g : Generator)
    (step_size offset shape : Pair) (cs : Z) (jobs : list Z) :
  (forall job, In job jobs ->
     Z.min cs (fst shape - (fst offset + job * cs)) <= 0) ->
  split_jobs FP g step_size offset shape cs jobs = finished.
Proof.
  destruct jobs as [|job jobs]; [reflexivity|]. intros H.
  cbn [split_jobs axis].
  specialize (H job (or_introl eq_refl)).
  destruct (Z.leb_spec (Z.min cs (fst shape - (fst offset + job * cs))) 0);
    [reflexivity|lia].
Qed.

(** The constructor of a sub-generator, on an image that answers it. *)
Lemma sub_generator_init (FP : PyFloat) (img : Image)
    (step_size offset s : Pair) (c : Crs) (t : Transform) :
  image_answers img step_size c t ->
  FullGenerator_init FP img step_size offset (ShapePair s)
  = Ok (unloaded img c t (Full step_size offset s)).
Proof.
  intros (Hc & (t0 & Ht0) & Ht). unfold FullGenerator_init, Generator_init.
  rewrite Hc, Ht0. cbn [bind]. rewrite Ht. reflexivity.
Qed.

(** The specification's example: [split(2)] of a 5-row sweep generator at
    offset 0 gives row offsets 0 and 3 and row counts 3 and 2. *)
Example split_two_of_five_rows :
  map variant (fst (split binary64 sweep5 2)) =
  [Full (2, 2) (0, 0) (3, 5); Full (2, 2) (3, 0) (2, 5)]
  /\ snd (split binary64 sweep5 2) = None.
Proof. split; reflexivity. Qed.

(** C5 fails when the generator has a row offset: [split] subtracts the
    absolute row offset from the relative row count, so a generator whose
    row offset is at least its row count is split into no sub-generator
    at all, and none of its rows is covered; when the row count and the
    number of chunks have at most 53 bits, the division cannot overflow
    and the iteration ends without an exception. *)
Theorem split_drops_rows_under_row_offset :
  forall (FP : PyFloat) (g : Generator) (step_size : Pair) (o oc R C n : Z),
    variant g = Full step_size (o, oc) (R, C) ->
    0 < n -> 0 < R -> R <= o ->
    fst (split FP g n) = []
    /\ (PyFloatLaws FP -> double_exact R -> double_exact n ->
        split FP g n = ([], None)).
Proof.
  intros FP g step_size o oc R C n Hv Hn HR Ho.
  assert (Hjobs : forall cs,
             split_jobs FP g step_size (o, oc) (R, C) cs (range n)
             = finished).
  { intros cs. apply split_jobs_none. intros job Hjob.
    apply in_range in Hjob. cbn [fst]. nia. }
  split.
  - unfold split. rewrite Hv.
    destruct (ceil_truediv FP _ n); [now rewrite Hjobs|reflexivity].
  - intros L HR' Hn'.
    destruct (ceil_truediv_succeeds FP L R n) as (cs & Hcs); try lia;
      try assumption.
    rewrite (split_chunk_size FP g _ _ _ n cs Hv Hcs). apply Hjobs.
Qed.

Lemma split_drops_rows_under_row_offset_witness :
  fst (split binary64 sweep5 2) <> []
  /\ nth_error (fst (split binary64 sweep5 2)) 1 = Some sweep5_rows_3_4
  /\ split binary64 sweep5_rows_3_4 2 = ([], None).
Proof.
  split; [discriminate|]. split; [reflexivity|].
  apply (split_drops_rows_under_row_offset binary64 sweep5_rows_3_4
           (2, 2) 3 0 2 5 2 eq_refl); try lia.
  - exact binary64_laws.
  - unfold double_exact; simpl; lia.
  - unfold double_exact; simpl; lia.
Defined.

(** ** The unloaded state (C6) *)

Lemma floor_half_of_raises (FP : PyFloat) (w : Z) (e : PyError) :
  floor_half_of FP w = Raise e -> e = OverflowError.
Proof.
  unfold floor_half_of. destruct (float_of_int FP w); cbn [overflow bind].
  - destruct (float_floor FP _); cbn; congruence.
  - congruence.
Qed.

Lemma floor_cell_centre_raises (FP : PyFloat) (i s : Z) (e : PyError) :
  floor_cell_centre FP i s = Raise e -> e = OverflowError.
Proof.
  unfold floor_cell_centre.
  destruct (float_of_int FP i); cbn [overflow bind]; [|congruence].
  destruct (float_of_int FP s); cbn [overflow bind]; [|congruence].
  destruct (float_floor FP _); cbn; congruence.
Qed.

(** With the padding set, [_get_slices] raises nothing but the overflow
    of a float expression. *)
Lemma get_slices_raises (FP : PyFloat) (g : Generator) (pad index w : Pair)
    (e : PyError) :
  _padding g = Some pad ->
  _get_slices FP g index w = Raise e -> e = OverflowError.
Proof.
  intros Hp. unfold _get_slices. rewrite Hp.
  assert (Hax : forall i r,
    (mid <- match variant g with
            | Full step_size _ _ =>
                m <- floor_cell_centre FP (axis index i) (axis step_size i) ;;
                Ok (axis pad i + m)
            | _ => Ok (axis pad i + axis index i)
            end ;;
     half <- floor_half_of FP (axis w i) ;;
     Ok (mk_slice (mid - half) (mid - half + axis w i))) = Raise r ->
    r = OverflowError).
  { intros i r. destruct (variant g) as [| |step_size offset shape];
      cbn [bind].
    - destruct (floor_half_of FP (axis w i)) eqn:H; cbn [bind];
        [discriminate|]. intros [= <-]. eapply floor_half_of_raises, H.
    - destruct (floor_half_of FP (axis w i)) eqn:H; cbn [bind];
        [discriminate|]. intros [= <-]. eapply floor_half_of_raises, H.
    - destruct (floor_cell_centre FP _ _) eqn:Hc; cbn [bind].
      + destruct (floor_half_of FP (axis w i)) eqn:H; cbn [bind];
          [discriminate|]. intros [= <-]. eapply floor_half_of_raises, H.
      + intros [= <-]. eapply floor_cell_centre_raises, Hc. }
  match goal with
  | |- (s0 <- ?a ;; _) = _ -> _ => destruct a eqn:H0
  end; cbn [bind].
  - match goal with
    | |- (s1 <- ?a ;; _) = _ -> _ => destruct a eqn:H1
    end; cbn [bind]; [discriminate|].
    intros [= <-]. eapply Hax, H1.
  - intros [= <-]. eapply Hax, H0.
Qed.

Lemma getitem_unloaded (FP : PyFloat) (g : Generator)
    (index : Z * Z * Window) :
  _image_cache g = None ->
  (__getitem__ FP g index = Raise TypeError
   \/ __getitem__ FP g index = Raise OverflowError)
  /\ (_padding g = None -> __getitem__ FP g index = Raise TypeError).
Proof.
  intros Hc. destruct index as [[i j] w]. unfold __getitem__.
  destruct (_padding g) as [pad|] eqn:Hp.
  - split; [|discriminate].
    destruct (_get_slices FP g (i, j) w) as [s|e] eqn:Hs; cbn [bind].
    + rewrite Hc. now left.
    + right. f_equal. eapply get_slices_raises; eassumption.
  - unfold _get_slices. rewrite Hp. cbn [bind]. split; [now left|reflexivity].
Qed.

(** C6: in the unloaded state, starting either iteration raises the
    unloaded-state [RuntimeError]; indexing does not.  It raises the
    [TypeError] of subscripting the unset padding or cache (always so
    before the first load, and whenever the float expressions of the
    slices are exact), or else the [OverflowError] of a float expression
    on an operand beyond the doubles. *)
Theorem unloaded_indexing_raises_TypeError :
  forall (FP : PyFloat) (g : Generator) (index : Z * Z * Window),
    _image_cache g = None ->
    FullGenerator_iter FP g = raising (RuntimeError unloaded_msg)
    /\ (forall R fuel world,
          RandomSampleGenerator_iter FP R fuel g world
          = Some (raising (RuntimeError unloaded_msg)))
    /\ (__getitem__ FP g index = Raise TypeError
        \/ __getitem__ FP g index = Raise OverflowError)
    /\ (_padding g = None -> __getitem__ FP g index = Raise TypeError)
    /\ (PyFloatLaws FP ->
        slices_exact g (fst (fst index), snd (fst index)) (snd index) ->
        __getitem__ FP g index = Raise TypeError)
    /\ TypeError <> RuntimeError unloaded_msg
    /\ OverflowError <> RuntimeError unloaded_msg.
Proof.
  intros FP g index Hc.
  destruct (getitem_unloaded FP g index Hc) as [Hany Hnone].
  split; [|split; [|split; [|split; [|split; [|split]]]]].
  - unfold FullGenerator_iter. now rewrite Hc.
  - intros R fuel world. unfold RandomSampleGenerator_iter, sampling.
    now rewrite Hc.
  - exact Hany.
  - exact Hnone.
  - intros L Hex. destruct index as [[i j] w]. cbn [fst snd] in Hex.
    destruct (_padding g) as [pad|] eqn:Hp; [|now apply Hnone].
    unfold __getitem__.
    rewrite (get_slices_in_integers FP L g pad (i, j) w Hp Hex).
    cbn [bind]. now rewrite Hc.
  - discriminate.
  - discriminate.
Qed.

Lemma unloaded_indexing_raises_TypeError_witness :
  __getitem__ binary64 base10 (0, 0, (4, 4)) = Raise TypeError.
Proof.
  destruct (unloaded_indexing_raises_TypeError binary64 base10
              (0, 0, (4, 4)) eq_refl) as (_ & _ & _ & H & _).
  now apply H.
Defined.

(** ** The sampling loop *)

Lemma list_getitem_in_range {A} (xs : list A) (k : Z) :
  0 <= k < len xs -> exists x, list_getitem xs k = Ok x.
Proof.
  intros Hk. unfold list_getitem.
  destruct (Z.ltb_spec k 0); [lia|].
  destruct (Z.ltb_spec k 0); [lia|].
  destruct (nth_error xs (Z.to_nat k)) eqn:Hn; [eauto|].
  apply nth_error_None in Hn. unfold len in Hk. lia.
Qed.

Lemma classes_then (a b : Pair) (truth : Z)
    (t1 t2 : option (Trace (Pair * Z))) :
  classes t1 = classes t2 ->
  classes (option_map (then_ ([(a, truth)], None)) t1)
  = classes (option_map (then_ ([(b, truth)], None)) t2).
Proof.
  destruct t1 as [[ys1 e1]|], t2 as [[ys2 e2]|]; cbn; congruence.
Qed.

Section SampleLoop.

Context (R : RandomStateAPI) (L : RandomStateLaws R).

(** Once the count is reached the loop is over, whatever the fuel. *)
Lemma sample_loop_done {X} (emit : Pair -> Z -> Trace X)
    (masks : list Mask) (p : option (list Q)) (K : Z) (fuel : nat)
    (sample : Z) (rs np : rstate R) :
  K <= sample ->
  sample_loop R emit masks p K fuel sample rs np = Some finished.
Proof.
  intros HK. destruct fuel; cbn [sample_loop];
    destruct (Z.ltb_spec sample K); (lia || reflexivity).
Qed.

(** If the class draws are accepted and no mask is degenerate, the loop
    runs to its end and yields [W] items for each of the remaining
    samples. *)
Lemma sample_loop_count {X}
    (emit : Pair -> Z -> Trace X) (masks : list Mask) (p : option (list Q))
    (K : Z) (W : nat) :
  (forall st, exists k st', choice R st (len masks) p = Ok (k, st')) ->
  (forall mask, In mask masks -> argwhere (filled mask 0) <> []) ->
  (forall ij truth, exists ys,
      emit ij truth = (ys, None) /\ List.length ys = W) ->
  forall (fuel : nat) (sample : Z) (rs np : rstate R),
    (Z.to_nat (K - sample) <= fuel)%nat ->
    exists items,
      sample_loop R emit masks p K fuel sample rs np = Some (items, None)
      /\ List.length items = (Z.to_nat (K - sample) * W)%nat.
Proof.
  intros Hclass Hmask Hemit.
  induction fuel as [|fuel IH]; intros sample rs np Hfuel.
  - cbn [sample_loop]. destruct (Z.ltb_spec sample K); [lia|].
    exists []. split; [reflexivity|].
    now replace (Z.to_nat (K - sample)) with 0%nat by lia.
  - cbn [sample_loop]. destruct (Z.ltb_spec sample K) as [Hlt|Hge].
    + destruct (Hclass rs) as (truth & rs' & Hch). rewrite Hch.
      pose proof (choice_range R L _ _ _ _ _ Hch) as Htr.
      unfold list_getitem at 1.
      destruct (Z.ltb_spec truth 0); [lia|].
      destruct (Z.ltb_spec truth 0); [lia|].
      destruct (nth_error masks (Z.to_nat truth)) as [mask|] eqn:Hnth.
      2:{ apply nth_error_None in Hnth. unfold len in Htr. lia. }
      pose proof (Hmask mask (nth_error_In _ _ Hnth)) as Hne.
      set (choices := argwhere (filled mask 0)) in *.
      assert (Hlen : 0 < len choices).
      { unfold len. destruct choices; [congruence|cbn; lia]. }
      destruct (choice_uniform R L np _ Hlen) as (k & np' & Hk).
      rewrite Hk.
      pose proof (choice_range R L _ _ _ _ _ Hk) as Hkr.
      unfold list_getitem.
      destruct (Z.ltb_spec k 0); [lia|].
      destruct (Z.ltb_spec k 0); [lia|].
      destruct (nth_error choices (Z.to_nat k)) as [ij|] eqn:Hij.
      2:{ apply nth_error_None in Hij. unfold len in Hkr. lia. }
      destruct (Hemit ij truth) as (ys & Hys & Hlenys). rewrite Hys.
      destruct (IH (sample + 1) rs' np') as (items & Hit & Hlenit); [lia|].
      rewrite Hit. cbn [option_map then_ fst snd].
      exists (ys ++ items). split; [reflexivity|].
      rewrite length_app, Hlenys, Hlenit.
      replace (Z.to_nat (K - sample)) with (S (Z.to_nat (K - (sample + 1))))
        by lia.
      lia.
    + exists []. split; [reflexivity|].
      now replace (Z.to_nat (K - sample)) with 0%nat by lia.
Qed.

(** The class drawn at each sample comes from the seeded generator alone:
    it does not depend on the module-level generator. *)
Lemma sample_loop_classes
    (masks : list Mask) (p : option (list Q)) (K : Z) :
  forall (fuel : nat) (sample : Z) (rs np1 np2 : rstate R),
    classes (sample_loop R (fun ij truth => yield (ij, truth)) masks p K
                         fuel sample rs np1)
    = classes (sample_loop R (fun ij truth => yield (ij, truth)) masks p K
                           fuel sample rs np2).
Proof.
  induction fuel as [|fuel IH]; intros sample rs np1 np2;
    cbn [sample_loop]; destruct (sample <? K); try reflexivity.
  destruct (choice R rs (len masks) p) as [[truth rs']|]; [|reflexivity].
  destruct (list_getitem masks truth) as [mask|]; [|reflexivity].
  set (choices := argwhere (filled mask 0)).
  destruct (Z.leb_spec (len choices) 0) as [Hle|Hgt].
  - now rewrite !(choice_empty R L) by assumption.
  - destruct (choice_uniform R L np1 _ Hgt) as (k1 & np1' & H1).
    destruct (choice_uniform R L np2 _ Hgt) as (k2 & np2' & H2).
    rewrite H1, H2.
    destruct (list_getitem_in_range choices k1
                (choice_range R L _ _ _ _ _ H1)) as (ij1 & ->).
    destruct (list_getitem_in_range choices k2
                (choice_range R L _ _ _ _ _ H2)) as (ij2 & ->).
    unfold yield. apply classes_then, IH.
Qed.

End SampleLoop.

(** The stand-in generator obeys the laws. *)
Lemma lcg_laws : RandomStateLaws lcg.
Proof.
  constructor; cbn [choice lcg].
  - intros st a p k st'. destruct (Z.leb_spec a 0); [discriminate|].
    intros [= <- _]. apply Z.mod_pos_bound; lia.
  - intros st a Ha. destruct (Z.leb_spec a 0); [lia|]. eauto.
  - intros st a p Ha. destruct (Z.leb_spec a 0); [reflexivity|lia].
Qed.

(** ** Sampling without a sample count (C3) *)

(** C3 fails on its first half: without a sample count the loop condition
    compares an integer with [None], so a loaded sampling generator raises
    [TypeError] before it yields anything, whatever the fuel. *)
Theorem unbounded_sampling_raises_TypeError :
  forall (FP : PyFloat) (R : RandomStateAPI) (fuel : nat) (g : Generator)
         (world : World R)
         (masks : list Mask) (p : option (list Q)) (seed : option Z),
    variant g = RandomSample masks p None seed ->
    _image_cache g <> None ->
    (forall s, seed = Some s -> exists st, RandomState R s = Ok st) ->
    RandomSampleGenerator_iter FP R fuel g world = Some (raising TypeError).
Proof.
  intros FP R fuel g world masks p seed Hv Hc Hseed.
  unfold RandomSampleGenerator_iter, sampling. rewrite Hv.
  destruct (_image_cache g); [|congruence].
  destruct seed as [s|]; [|reflexivity].
  destruct (Hseed s eq_refl) as (st & ->). reflexivity.
Qed.

Lemma unbounded_sampling_raises_TypeError_witness :
  RandomSampleGenerator_iter binary64 lcg 100 (sampler None (Some 0))
    (mk_World lcg 7 11) = Some ([], Some TypeError).
Proof.
  apply (unbounded_sampling_raises_TypeError binary64 lcg 100
           (sampler None (Some 0))
           _ [two_positions] None (Some 0)).
  - reflexivity.
  - discriminate.
  - intros s [= <-]. exists 0. reflexivity.
Defined.

(** On a pixel-indexed generator only the window enters a float
    expression. *)
Lemma slices_exact_sampling (g : Generator) (index : Pair) (w : Window)
    masks p samples seed :
  variant g = RandomSample masks p samples seed ->
  window_exact w -> slices_exact g index w.
Proof. intros Hv Hw. split; [exact Hw|]. now rewrite Hv. Qed.

(** X17: with a sample count [K] the second half of C3 holds: if the class
    draws are accepted, no mask is degenerate and the window extents have
    at most 53 bits, the loaded generator yields exactly [K] times the
    number of windows items and stops. *)
Theorem bounded_sampling_count :
  forall (FP : PyFloat) (R : RandomStateAPI) (g0 g : Generator)
         (itype : string)
         (ws : list Window) (masks : list Mask) (p : option (list Q))
         (K : Z) (seed : option Z) (world : World R) (fuel : nat),
    PyFloatLaws FP ->
    RandomStateLaws R ->
    load_image g0 itype ws = (g, None) ->
    variant g0 = RandomSample masks p (Some K) seed ->
    Forall window_exact ws ->
    0 <= K ->
    (forall s, seed = Some s -> exists st, RandomState R s = Ok st) ->
    (forall st, exists k st', choice R st (len masks) p = Ok (k, st')) ->
    (forall mask, In mask masks -> argwhere (filled mask 0) <> []) ->
    (Z.to_nat K <= fuel)%nat ->
    exists items,
      RandomSampleGenerator_iter FP R fuel g world = Some (items, None)
      /\ len items = K * len ws.
Proof.
  intros FP R g0 g itype ws masks p K seed world fuel LF L Hload Hv Hws HK
         Hseed Hclass Hmask Hfuel.
  destruct (load_image_success _ _ _ _ Hload)
    as (pad & blk & layers & arr & Hp & Hb & Hc & Hl & ->).
  set (g := set_cache _ itype arr).
  assert (Hpad : _padding g = Some pad) by reflexivity.
  assert (Hcache : _image_cache g = Some arr) by reflexivity.
  assert (Hvg : variant g = RandomSample masks p (Some K) seed) by exact Hv.
  unfold RandomSampleGenerator_iter, sampling. rewrite Hcache, Hvg.
  assert (Hst : exists st, match seed with
                           | Some s => RandomState R s
                           | None => Ok (os_entropy world)
                           end = Ok st).
  { destruct seed as [s|]; [now apply Hseed|eauto]. }
  destruct Hst as (st & ->).
  destruct (sample_loop_count R L (yield_windows FP g) masks p K
              (List.length ws) Hclass Hmask) with
    (fuel := fuel) (sample := 0) (rs := st) (np := np_random world)
    as (items & Hit & Hlen).
  - intros ij truth. unfold yield_windows.
    change (_windows g) with (Some (sorted_reverse ws)).
    exists (map (fun w => (item_at FP g (fst ij) (snd ij) w, truth))
                (sorted_reverse ws)).
    split.
    + apply for_each_yield_map. intros w Hw.
      rewrite (getitem_item_at FP LF g pad arr _ _ w Hpad Hcache);
        [reflexivity|].
      apply (slices_exact_sampling g _ w _ _ _ _ Hvg).
      rewrite Forall_forall in Hws. apply Hws.
      now apply (Permutation_in _ (sorted_reverse_perm ws)).
    + now rewrite length_map, sorted_reverse_length.
  - now rewrite Z.sub_0_r.
  - exists items. split; [exact Hit|]. unfold len. rewrite Hlen.
    rewrite Z.sub_0_r. lia.
Qed.

(** ** Seeded sampling (C2) *)

(** X18: under a fixed seed the sequence of class labels is reproducible:
    it does not depend on the state of the module-level generator. *)
Theorem seeded_classes_reproducible :
  forall (R : RandomStateAPI) (fuel : nat) (g : Generator)
         (masks : list Mask) (p : option (list Q)) (samples : option Z)
         (s : Z) (st1 st2 e1 e2 : rstate R),
    RandomStateLaws R ->
    variant g = RandomSample masks p samples (Some s) ->
    classes (sample_draws R fuel g (mk_World R st1 e1))
    = classes (sample_draws R fuel g (mk_World R st2 e2)).
Proof.
  intros R fuel g masks p samples s st1 st2 e1 e2 L Hv.
  unfold sample_draws, sampling. rewrite Hv.
  destruct (_image_cache g); [|reflexivity].
  destruct (RandomState R s); [|reflexivity].
  destruct samples; [|reflexivity].
  cbn [np_random]. now apply sample_loop_classes.
Qed.

(** C2 fails: the position within the mask is drawn from the module-level
    generator, which the seed does not touch.  With the seed, the masks
    and the probabilities fixed, two processes whose module-level
    generators answer differently draw different positions. *)
Theorem seeded_positions_depend_on_process_state :
  forall (R : RandomStateAPI) (seed : Z) (fuel : nat)
         (st1 st2 st1' st2' e1 e2 : rstate R) (k1 k2 : Z),
    RandomStateLaws R ->
    (exists rs, RandomState R seed = Ok rs) ->
    choice R st1 2 None = Ok (k1, st1') ->
    choice R st2 2 None = Ok (k2, st2') ->
    k1 <> k2 ->
    (1 <= fuel)%nat ->
    sample_draws R fuel (sampler (Some 1) (Some seed)) (mk_World R st1 e1)
    = Some ([((0, k1), 0)], None)
    /\ sample_draws R fuel (sampler (Some 1) (Some seed)) (mk_World R st2 e2)
       = Some ([((0, k2), 0)], None)
    /\ sample_draws R fuel (sampler (Some 1) (Some seed)) (mk_World R st1 e1)
       <> sample_draws R fuel (sampler (Some 1) (Some seed))
                       (mk_World R st2 e2).
Proof.
  intros R seed fuel st1 st2 st1' st2' e1 e2 k1 k2 L (rs & Hrs) H1 H2 Hk Hfuel.
  assert (Hrun : forall st st' e k,
             choice R st 2 None = Ok (k, st') ->
             sample_draws R fuel (sampler (Some 1) (Some seed))
                          (mk_World R st e)
             = Some ([((0, k), 0)], None)).
  { intros st st' e k Hch.
    unfold sample_draws, sampling, sampler.
    cbn [load_image fst _image_cache variant RandomSampleGenerator_init].
    change (_image_cache _) with
      (_image_cache (sampler (Some 1) (Some seed))).
    change (variant (fst _)) with
      (RandomSample [two_positions] None (Some 1) (Some seed)).
    cbv beta iota. rewrite Hrs. cbn [np_random].
    destruct fuel as [|fuel']; [lia|]. cbn [sample_loop].
    change (0 <? 1) with true. cbv iota.
    change (len [two_positions]) with 1.
    destruct (choice_uniform R L rs 1 ltac:(lia)) as (truth & rs' & Ht).
    rewrite Ht.
    assert (truth = 0) by (pose proof (choice_range R L _ _ _ _ _ Ht); lia).
    subst truth.
    change (list_getitem [two_positions] 0) with (Ok two_positions).
    cbv iota.
    change (argwhere (filled two_positions 0)) with [(0, 0); (0, 1)].
    change (len [(0, 0); (0, 1)]) with 2. rewrite Hch.
    pose proof (choice_range R L _ _ _ _ _ Hch) as Hr.
    assert (Hk01 : k = 0 \/ k = 1) by lia.
    destruct Hk01 as [-> | ->].
    - change (list_getitem [(0, 0); (0, 1)] 0) with (Ok (A := Pair) (0, 0)).
      cbv iota beta. unfold yield.
      now rewrite sample_loop_done by lia.
    - change (list_getitem [(0, 0); (0, 1)] 1) with (Ok (A := Pair) (0, 1)).
      cbv iota beta. unfold yield.
      now rewrite sample_loop_done by lia. }
  rewrite (Hrun _ _ _ _ H1), (Hrun _ _ _ _ H2).
  repeat split. intros [= E]. contradiction.
Qed.

Lemma seeded_positions_depend_on_process_state_witness :
  sample_draws lcg 1 (sampler (Some 1) (Some 0)) (mk_World lcg 0 0)
  = Some ([((0, 0), 0)], None)
  /\ sample_draws lcg 1 (sampler (Some 1) (Some 0)) (mk_World lcg 1 0)
     = Some ([((0, 1), 0)], None)
  /\ sample_draws lcg 1 (sampler (Some 1) (Some 0)) (mk_World lcg 0 0)
     <> sample_draws lcg 1 (sampler (Some 1) (Some 0)) (mk_World lcg 1 0).
Proof.
  apply (seeded_positions_depend_on_process_state lcg 0 1%nat
           0 1 12345 1103527590 0 0 0 1 lcg_laws).
  - exists 0. reflexivity.
  - reflexivity.
  - reflexivity.
  - lia.
  - lia.
Defined.

(** The same two runs, seen through what the iterator yields: the windows
    are cut at different columns of the raster. *)
Example seeded_windows_differ :
  exists a1 a2,
    RandomSampleGenerator_iter binary64 lcg 1 (sampler (Some 1) (Some 0))
                               (mk_World lcg 0 0) = Some ([(a1, 0)], None)
    /\ RandomSampleGenerator_iter binary64 lcg 1
                                  (sampler (Some 1) (Some 0))
                                  (mk_World lcg 1 0) = Some ([(a2, 0)], None)
    /\ arr_at a1 0 0 = -202
    /\ arr_at a2 0 0 = -201.
Proof.
  do 2 eexists. split; [vm_compute; reflexivity|].
  split; [vm_compute; reflexivity|]. split; reflexivity.
Qed.

(** * Further properties of the code *)

(** ** More on [load_image] *)

Lemma compute_padding_empty_iff (ws : list Window) :
  (exists e, compute_padding ws = Raise e) <-> ws = [].
Proof.
  split.
  - intros (e & He). destruct ws as [|w ws]; [reflexivity|].
    destruct (compute_padding_nonempty (w :: ws)) as (p0 & p1 & Hp & _);
      [discriminate|congruence].
  - intros ->. exists ValueError. reflexivity.
Qed.

(** X1: how [load_image] can fail, and what it leaves behind. *)
Theorem load_image_failure_modes :
  forall (g g' : Generator) (itype : string) (ws : list Window) (e : PyError),
    load_image g itype ws = (g', Some e) ->
    _image_cache g' = _image_cache g
    /\ loaded_itype g' = loaded_itype g
    /\ _windows g' = Some (sorted_reverse ws)
    /\ ((ws = [] /\ e = ValueError /\ _padding g' = _padding g)
        \/ (ws <> []
            /\ exists pad blk,
                compute_padding ws = Ok pad
                /\ _padding g' = Some pad
                /\ _get_blocks g' = Ok blk
                /\ (copy_block (image g) blk = Raise e
                    \/ exists layers,
                        copy_block (image g) blk = Ok layers
                        /\ layers itype = None /\ e = KeyError))).
Proof.
  intros g g' itype ws e. unfold load_image.
  destruct (compute_padding ws) as [pad|e0] eqn:Hp.
  - assert (Hne : ws <> []).
    { intros ->. discriminate. }
    destruct (_get_blocks _) as [blk|e1] eqn:Hb.
    + cbn [image set_padding set_windows].
      destruct (copy_block (image g) blk) as [layers|e2] eqn:Hc.
      * destruct (layers itype) as [arr|] eqn:Hl; [discriminate|].
        intros [= <- <-]. repeat (split; [reflexivity|]).
        right. split; [exact Hne|]. exists pad, blk.
        repeat (split; [reflexivity || exact Hb|]).
        right. exists layers. auto.
      * intros [= <- <-]. repeat (split; [reflexivity|]).
        right. split; [exact Hne|]. exists pad, blk.
        repeat (split; [reflexivity || exact Hb|]). now left.
    + unfold _get_blocks in Hb. cbn [_padding set_padding] in Hb.
      destruct (variant _); discriminate.
  - assert (ws = []) as -> by (apply compute_padding_empty_iff; eauto).
    cbn in Hp. injection Hp as <-.
    intros [= <- <-]. repeat (split; [reflexivity|]). left. auto.
Qed.

Lemma load_image_failure_modes_witness :
  _image_cache (fst (load_image base10 "nir" [(4, 4)]))
  = None
  /\ _padding (fst (load_image base10 "nir" [(4, 4)]))
     = Some (4, 4)
  /\ snd (load_image base10 "nir" [(4, 4)]) = Some KeyError.
Proof.
  destruct (load_image_failure_modes base10 _ "nir"
              [(4, 4)] KeyError eq_refl) as (Hc & _ & _ & _).
  split; [exact Hc|]. split; reflexivity.
Defined.

(** [load_image] leaves the coordinate system and the transform alone. *)
Lemma load_image_georeference (g : Generator) (itype : string)
    (ws : list Window) :
  crs (fst (load_image g itype ws)) = crs g
  /\ transform (fst (load_image g itype ws)) = transform g.
Proof.
  unfold load_image.
  destruct (compute_padding ws); [|split; reflexivity].
  destruct (_get_blocks _); [|split; reflexivity].
  destruct (copy_block _ _); [|split; reflexivity].
  destruct (_ itype); split; reflexivity.
Qed.

(** A successful load overwrites everything a generator holds but its
    image, its georeference and its variant. *)
Lemma load_image_success_from (g1 g2 g' : Generator) (itype : string)
    (ws : list Window) :
  image g1 = image g2 -> variant g1 = variant g2 ->
  crs g1 = crs g2 -> transform g1 = transform g2 ->
  load_image g1 itype ws = (g', None) ->
  load_image g2 itype ws = (g', None).
Proof.
  intros Hi Hv Hc' Ht Hload.
  destruct (load_image_success _ _ _ _ Hload)
    as (pad & blk & layers & arr & Hp & Hb & Hc & Hl & ->).
  unfold load_image. rewrite Hp.
  assert (Hb2 : _get_blocks (set_padding (set_windows g2 (sorted_reverse ws))
                                         pad) = Ok blk).
  { unfold _get_blocks in *.
    cbn [_padding set_padding set_windows variant image] in *.
    now rewrite <- Hi, <- Hv. }
  rewrite Hb2. cbn [image set_padding set_windows].
  rewrite <- Hi, Hc, Hl. unfold set_cache, set_padding, set_windows.
  cbn [image variant _windows _padding crs transform].
  now rewrite Hi, Hv, Hc', Ht.
Qed.

(** X2: loading again starts afresh: a second load succeeds with a given
    result exactly when the same load of the generator as it was before
    the first load does, whether or not the first load succeeded. *)
Theorem reload_forgets_first_load :
  forall (g g' : Generator) (itype1 itype2 : string)
         (ws1 ws2 : list Window),
    load_image (fst (load_image g itype1 ws1)) itype2 ws2 = (g', None)
    <-> load_image g itype2 ws2 = (g', None).
Proof.
  intros g g' itype1 itype2 ws1 ws2.
  destruct (load_image_variant g itype1 ws1) as [Hv Hi].
  destruct (load_image_georeference g itype1 ws1) as [Hc Ht].
  split; apply load_image_success_from; congruence.
Qed.

Lemma reload_forgets_first_load_witness :
  load_image (fst (load_image base10 "nir" [(2, 2)]))
             "rgb" [(4, 4)]
  = load_image base10 "rgb" [(4, 4)].
Proof.
  apply (proj2 (reload_forgets_first_load base10 _
                  "nir" "rgb" [(2, 2)] [(4, 4)])).
  reflexivity.
Defined.

(** ** The order of the windows passed to [load_image] *)

Lemma tuple_ge_antisym (a b : Pair) : tuple_ge a b -> tuple_ge b a -> a = b.
Proof.
  rewrite !tuple_ge_spec. destruct a, b; cbn [fst snd]. intros; f_equal; lia.
Qed.

Lemma tuple_ge_refl (a : Pair) : tuple_ge a a.
Proof. apply tuple_ge_spec. lia. Qed.

(** A list in descending order is determined by its elements. *)
Lemma descending_unique (l1 l2 : list Pair) :
  StronglySorted tuple_ge l1 -> StronglySorted tuple_ge l2 ->
  Permutation l1 l2 -> l1 = l2.
Proof.
  revert l2. induction l1 as [|a l1 IH]; intros l2 H1 H2 HP.
  - now apply Permutation_nil in HP.
  - destruct l2 as [|b l2].
    { apply Permutation_sym, Permutation_nil in HP. discriminate. }
    inversion H1 as [|? ? S1 F1]; inversion H2 as [|? ? S2 F2]; subst.
    rewrite Forall_forall in F1, F2.
    assert (Hab : a = b).
    { apply tuple_ge_antisym.
      - assert (Hin : In b (a :: l1))
          by (apply (Permutation_in _ (Permutation_sym HP)); now left).
        destruct Hin as [->|Hin]; [apply tuple_ge_refl|now apply F1].
      - assert (Hin : In a (b :: l2))
          by (apply (Permutation_in _ HP); now left).
        destruct Hin as [->|Hin]; [apply tuple_ge_refl|now apply F2]. }
    subst b. f_equal. apply IH; auto.
    now apply Permutation_cons_inv in HP.
Qed.

Lemma sorted_reverse_permutation (ws ws' : list Window) :
  Permutation ws ws' -> sorted_reverse ws = sorted_reverse ws'.
Proof.
  intros HP. apply descending_unique; try apply sorted_reverse_sorted.
  rewrite !sorted_reverse_perm. exact HP.
Qed.

Lemma is_max_of_unique (xs : list Z) (m m' : Z) :
  is_max_of xs m -> is_max_of xs m' -> m = m'.
Proof.
  intros [Hin Hub] [Hin' Hub']. specialize (Hub _ Hin'). specialize (Hub' _ Hin).
  lia.
Qed.

Lemma is_max_of_permutation (xs ys : list Z) (m : Z) :
  Permutation xs ys -> is_max_of xs m -> is_max_of ys m.
Proof.
  intros HP [Hin Hub]. split.
  - now apply (Permutation_in _ HP).
  - intros y Hy. apply Hub. now apply (Permutation_in _ (Permutation_sym HP)).
Qed.

Lemma compute_padding_permutation (ws ws' : list Window) :
  Permutation ws ws' -> compute_padding ws = compute_padding ws'.
Proof.
  intros HP. destruct ws as [|w ws].
  - now apply Permutation_nil in HP as ->.
  - assert (Hne' : ws' <> []).
    { intros ->. apply Permutation_sym, Permutation_nil in HP. discriminate. }
    destruct (compute_padding_nonempty (w :: ws)) as (p0 & p1 & -> & A0 & A1);
      [discriminate|].
    destruct (compute_padding_nonempty ws' Hne') as (q0 & q1 & -> & B0 & B1).
    f_equal. f_equal.
    + apply (is_max_of_unique (map fst ws')); [|exact B0].
      eapply is_max_of_permutation; [|exact A0]. now apply Permutation_map.
    + apply (is_max_of_unique (map snd ws')); [|exact B1].
      eapply is_max_of_permutation; [|exact A1]. now apply Permutation_map.
Qed.

(** X3: the order (and only the order) in which the caller lists the
    windows is immaterial: two lists with the same windows, each as many
    times, give the same outcome of [load_image], in state and in
    exception. *)
Theorem load_image_window_order :
  forall (g : Generator) (itype : string) (ws ws' : list Window),
    Permutation ws ws' ->
    load_image g itype ws = load_image g itype ws'.
Proof.
  intros g itype ws ws' HP. unfold load_image.
  now rewrite (sorted_reverse_permutation ws ws' HP),
    (compute_padding_permutation ws ws' HP).
Qed.

Lemma load_image_window_order_witness :
  load_image sweep5 "rgb" [(2, 2); (4, 4); (2, 6)]
  = load_image sweep5 "rgb" [(4, 4); (2, 6); (2, 2)].
Proof.
  apply (load_image_window_order sweep5 "rgb").
  apply Permutation_cons_append.
Defined.

(** ** Where a window lies in the raster *)

Lemma raster_image_serves (shape : Pair) (pix : Z -> Z -> Z) :
  serves_raster (raster_image shape pix) (fun _ => pix).
Proof.
  intros b layers key arr [= <-].
  destruct (String.eqb key "rgb"); [|discriminate].
  intros [= <-]. split; [reflexivity|]. reflexivity.
Qed.

Lemma serves_raster_whole_blocks (img : Image) pix :
  serves_raster img pix -> copies_whole_blocks img.
Proof. intros H b layers key arr Hc Hl. apply (H b layers key arr Hc Hl). Qed.

(** The window of a loaded generator, entry by entry. *)
Lemma loaded_window (FP : PyFloat) (L : PyFloatLaws FP) (g g' : Generator)
    (itype : string) (ws : list Window)
    (pix : string -> Z -> Z -> Z) (i j : Z) (w : Window) :
  serves_raster (image g) pix ->
  load_image g itype ws = (g', None) ->
  In w ws -> 0 <= fst w -> 0 <= snd w -> window_exact w ->
  steps_nonnegative g -> grid_exact g -> in_logical_shape g (i, j) ->
  exists a,
    __getitem__ FP g' (i, j, w) = Ok a
    /\ arr_shape a = w
    /\ forall r c,
        0 <= r < fst w -> 0 <= c < snd w ->
        arr_at a r c = pix itype (fst (window_origin g (i, j) w) + r)
                                 (snd (window_origin g (i, j) w) + c).
Proof.
  intros Himg Hload Hin Hw0 Hw1 Hwe Hsteps Hgrid Hidx.
  destruct (load_image_success _ _ _ _ Hload)
    as (pad & blk & layers & arr & Hp & Hb & Hc & Hl & ->).
  destruct (Himg _ _ _ _ Hc Hl) as [Hshape Hpix].
  destruct (loaded_slices FP L g itype ws pad blk arr i j w Hp Hb Hshape Hin
              Hw0 Hw1 Hwe Hsteps Hgrid Hidx)
    as (s0 & s1 & Hs & A & A' & B & B' & L0 & L1 & O0 & O1).
  destruct (getitem_entries FP _ arr i j w s0 s1 Hs eq_refl A A' B B')
    as (a & Ha & Hsh & Hat).
  exists a. split; [exact Ha|]. split.
  - rewrite Hsh, L0, L1. now destruct w.
  - intros r c Hr Hc'. rewrite Hat, Hpix.
    + rewrite <- O0, <- O1. f_equal; lia.
    + rewrite <- Hshape. lia.
    + rewrite <- Hshape. lia.
Qed.

(** X4: after a successful load from an image that serves a raster, the
    window returned at an index inside the shape holds the raster's
    pixels from the window's origin on: the pixel (or the centre of the
    cell) less half the window, whatever the padding.  The window is one
    of those loaded, of non-negative extents of at most 53 bits; the
    steps are non-negative and the swept extent has at most 52 bits, so
    that the float expressions are exact. *)
Theorem window_holds_raster_pixels :
  forall (FP : PyFloat) (g g' : Generator) (itype : string)
         (ws : list Window)
         (pix : string -> Z -> Z -> Z) (i j : Z) (w : Window),
    PyFloatLaws FP ->
    serves_raster (image g) pix ->
    load_image g itype ws = (g', None) ->
    In w ws -> 0 <= fst w -> 0 <= snd w -> window_exact w ->
    steps_nonnegative g -> grid_exact g -> in_logical_shape g (i, j) ->
    exists a,
      __getitem__ FP g' (i, j, w) = Ok a
      /\ arr_shape a = w
      /\ forall r c,
          0 <= r < fst w -> 0 <= c < snd w ->
          arr_at a r c = pix itype (fst (window_origin g (i, j) w) + r)
                                   (snd (window_origin g (i, j) w) + c).
Proof. intros FP g g' itype ws pix i j w L. now apply loaded_window. Qed.

Lemma window_holds_raster_pixels_witness :
  exists a,
    __getitem__ binary64 (fst (load_image sweep5 "rgb" [(4, 4)]))
                (1, 2, (4, 4)) = Ok a
    /\ arr_shape a = (4, 4)
    /\ forall r c,
        0 <= r < 4 -> 0 <= c < 4 ->
        arr_at a r c = 100 * (1 + r) + (3 + c).
Proof.
  apply (window_holds_raster_pixels binary64 sweep5 _ "rgb" [(4, 4)]
           (fun _ r c => 100 * r + c) 1 2 (4, 4) binary64_laws).
  - apply raster_image_serves.
  - reflexivity.
  - now left.
  - simpl; lia.
  - simpl; lia.
  - apply window_exact_small; simpl; lia.
  - unfold steps_nonnegative; simpl; lia.
  - unfold grid_exact; simpl; lia.
  - unfold in_logical_shape; simpl; lia.
Defined.

(** ** Indexing outside the shape *)

Lemma slice_length_bounds (start w n : Z) :
  0 <= w -> 0 <= n ->
  0 <= slice_length (mk_slice start (start + w)) n <= w
  /\ slice_length (mk_slice start (start + w)) n <= n.
Proof.
  intros Hw Hn. unfold slice_length, slice_indices, clip_bound.
  cbn [slice_start slice_stop].
  destruct (Z.ltb_spec start 0), (Z.ltb_spec (start + w) 0); lia.
Qed.


(** X5: indexing a loaded generator does not raise when the index lies
    outside the shape, as long as the float expressions of the slices are
    exact at it: numpy clips the slices (or counts them from the end), so
    the result is an array of at most the window's extent on each axis,
    and no error tells the caller. *)
Theorem loaded_getitem_never_raises :
  forall (FP : PyFloat) (g : Generator) (pad : Pair) (cache : ndarray)
         (i j : Z) (w : Window),
    PyFloatLaws FP ->
    _padding g = Some pad -> _image_cache g = Some cache ->
    0 <= fst (arr_shape cache) -> 0 <= snd (arr_shape cache) ->
    0 <= fst w -> 0 <= snd w ->
    slices_exact g (i, j) w ->
    exists a,
      __getitem__ FP g (i, j, w) = Ok a
      /\ 0 <= fst (arr_shape a) <= fst w
      /\ 0 <= snd (arr_shape a) <= snd w
      /\ fst (arr_shape a) <= fst (arr_shape cache)
      /\ snd (arr_shape a) <= snd (arr_shape cache).
Proof.
  intros FP g pad cache i j w L Hp Hc Hn0 Hn1 Hw0 Hw1 Hex.
  unfold __getitem__.
  rewrite (get_slices_in_integers FP L g pad (i, j) w Hp Hex), Hc.
  cbn [bind].
  eexists. split; [reflexivity|].
  unfold ndarray_getitem. cbn [arr_shape fst snd].
  destruct (variant g); cbn [fst snd]; unfold spec_range;
    match goal with
    | |- context [slice_length (mk_slice ?a (?a + fst w)) _] =>
        pose proof (slice_length_bounds a (fst w) _ Hw0 Hn0)
    end;
    match goal with
    | |- context [slice_length (mk_slice ?a (?a + snd w)) _] =>
        pose proof (slice_length_bounds a (snd w) _ Hw1 Hn1)
    end; lia.
Qed.

Lemma loaded_getitem_never_raises_witness :
  exists a,
    __getitem__ binary64 (fst (load_image base10 "rgb" [(4, 4)]))
                (13, -9, (4, 4)) = Ok a
    /\ 0 <= fst (arr_shape a) <= 4
    /\ 0 <= snd (arr_shape a) <= 4
    /\ fst (arr_shape a) <= 18
    /\ snd (arr_shape a) <= 18.
Proof.
  apply (loaded_getitem_never_raises binary64
           (fst (load_image base10 "rgb" [(4, 4)]))
           (4, 4)
           (mk_ndarray (18, 18) (fun r c => 100 * (-4 + r) + (-4 + c)))
           13 (-9) (4, 4) binary64_laws).
  - reflexivity.
  - reflexivity.
  - simpl; lia.
  - simpl; lia.
  - simpl; lia.
  - simpl; lia.
  - split; [apply window_exact_small; simpl; lia|exact I].
Defined.

(** Past the far edge the window loses rows, and before the near edge it
    is read from the other end of the cache. *)
Example getitem_outside_shape :
  exists a,
    __getitem__ binary64 (fst (load_image base10 "rgb" [(4, 4)]))
                (13, -9, (4, 4)) = Ok a
    /\ arr_shape a = (3, 4)
    /\ arr_at a 0 0 = 100 * 11 + 7.
Proof.
  eexists. split; [vm_compute; reflexivity|]. split; reflexivity.
Qed.

(** ** Sweeping any shape *)

(** X6: a sweep generator holding a cache, a padding and windows yields
    max(0, R) * max(0, C) * W items and ends without an exception, when
    the float expressions of the slices are exact at every cell swept; a
    non-positive row or column count, or an empty window list, makes the
    iteration empty rather than an error, whatever the floats do. *)
Theorem sweep_count_any_shape :
  forall (FP : PyFloat) (g : Generator) (pad : Pair) (cache : ndarray)
         (ws : list Window) (step_size offset shape : Pair),
    _padding g = Some pad -> _image_cache g = Some cache ->
    _windows g = Some ws -> variant g = Full step_size offset shape ->
    (fst shape <= 0 \/ snd shape <= 0 \/ ws = [] ->
     FullGenerator_iter FP g = finished)
    /\ (PyFloatLaws FP ->
        (forall i j w, 0 <= i < fst shape -> 0 <= j < snd shape ->
                       In w ws -> slices_exact g (i, j) w) ->
        snd (FullGenerator_iter FP g) = None
        /\ len (fst (FullGenerator_iter FP g))
           = Z.max 0 (fst shape) * Z.max 0 (snd shape) * len ws).
Proof.
  intros FP g pad cache ws step_size offset shape Hp Hc Hw Hv. split.
  - now apply (sweep_empty FP g cache ws step_size offset shape).
  - intros L Hex.
    destruct (sweep_trace_exact FP L g pad cache ws _ _ _ Hp Hc Hw Hv Hex)
      as [_ ->].
    cbn [fst snd]. split; [reflexivity|]. unfold len.
    rewrite (length_flat_map_const _ _
               (Z.to_nat (snd shape) * List.length ws)%nat).
    + rewrite length_range. lia.
    + intros i _. rewrite (length_flat_map_const _ _ (List.length ws)).
      * now rewrite length_range.
      * intros j _. now rewrite length_map.
Qed.

Lemma sweep_count_any_shape_witness :
  snd (FullGenerator_iter binary64
         (fst (load_image sweep5_rows_3_4 "rgb" [(4, 4)])))
  = None
  /\ len (fst (FullGenerator_iter binary64
                 (fst (load_image sweep5_rows_3_4 "rgb" [(4, 4)]))))
     = 2 * 5 * 1.
Proof.
  apply (sweep_count_any_shape binary64
           (fst (load_image sweep5_rows_3_4 "rgb" [(4, 4)]))
           (4, 4)
           (mk_ndarray (12, 18)
                       (fun r c => 100 * (2 + r) + (-4 + c)))
           [(4, 4)] (2, 2) (3, 0) (2, 5) eq_refl eq_refl eq_refl eq_refl).
  - exact binary64_laws.
  - intros i j w Hi Hj [<-|[]]. cbn [fst snd] in Hi, Hj.
    split; [apply window_exact_small; simpl; lia|].
    change (variant (fst (load_image sweep5_rows_3_4 "rgb" [(4, 4)])))
      with (Full (2, 2) (3, 0) (2, 5)).
    unfold cell_exact, double_exact. cbn [fst snd]. lia.
Defined.

(** ** Splitting in general *)

(** X7: [split(0)] raises [ZeroDivisionError] before it yields anything;
    a negative number of chunks yields no sub-generator, and raises
    nothing when the row count and the number of chunks are within the
    integers that doubles hold exactly. *)
Theorem split_nonpositive_chunks :
  forall (FP : PyFloat) (g : Generator) (step_size offset shape : Pair),
    variant g = Full step_size offset shape ->
    split FP g 0 = raising ZeroDivisionError
    /\ forall n, n < 0 ->
         fst (split FP g n) = []
         /\ (PyFloatLaws FP -> double_exact (fst shape) -> double_exact n ->
             split FP g n = finished).
Proof.
  intros FP g step_size offset shape Hv. split.
  - unfold split, ceil_truediv. now rewrite Hv.
  - intros n Hn.
    assert (Hjobs : forall cs,
               split_jobs FP g step_size offset shape cs (range n)
               = finished).
    { intros cs. unfold range. now replace (Z.to_nat n) with 0%nat by lia. }
    split.
    + unfold split. rewrite Hv.
      destruct (ceil_truediv FP (axis shape 0) n);
        [now rewrite Hjobs|reflexivity].
    + intros L HR Hn'.
      destruct (ceil_truediv_succeeds FP L (fst shape) n) as (cs & Hcs);
        [lia|exact HR|exact Hn'|].
      rewrite (split_chunk_size FP g _ _ _ n cs Hv Hcs). apply Hjobs.
Qed.

Lemma split_nonpositive_chunks_witness :
  split binary64 sweep5 0 = ([], Some ZeroDivisionError)
  /\ split binary64 sweep5 (-3) = ([], None).
Proof.
  destruct (split_nonpositive_chunks binary64 sweep5 (2, 2) (0, 0) (5, 5)
              eq_refl) as [H0 Hneg].
  split; [exact H0|].
  apply (proj2 (Hneg (-3) ltac:(lia)) binary64_laws);
    unfold double_exact; simpl; lia.
Defined.

(** The jobs of [split], for a positive chunk size: job [k] yields its
    chunk as long as [k * chunk_size] stays below the rows that the code
    reckons remain, [R - o]. *)
Lemma split_jobs_chunks (FP : PyFloat) (g : Generator) (c : Crs)
    (t : Transform) (step_size : Pair) (o oc R C cs M : Z) :
  image_answers (image g) step_size c t ->
  0 < cs -> (M - 1) * cs < R - o <= M * cs ->
  forall (b a : nat),
    split_jobs FP g step_size (o, oc) (R, C) cs (map Z.of_nat (seq a b)) =
    (map (chunk_at (image g) c t step_size o oc R C cs)
         (map Z.of_nat
              (seq a (Z.to_nat (Z.min (Z.of_nat (a + b)) M) - a))), None).
Proof.
  intros Himg Hcs HM. induction b as [|b IH]; intros a.
  - replace (Z.to_nat (Z.min (Z.of_nat (a + 0)) M) - a)%nat with 0%nat by lia.
    reflexivity.
  - cbn [seq map split_jobs axis fst snd].
    match goal with
    | |- context [?x <=? 0] => destruct (Z.leb_spec x 0) as [Hle|Hgt]
    end.
    + assert (M <= Z.of_nat a) by nia.
      replace (Z.to_nat (Z.min (Z.of_nat (a + S b)) M) - a)%nat
        with 0%nat by lia.
      reflexivity.
    + assert (Z.of_nat a < M) by nia.
      rewrite (sub_generator_init FP _ _ _ _ c t Himg). rewrite IH.
      replace (Z.to_nat (Z.min (Z.of_nat (a + S b)) M) - a)%nat
        with (S (Z.to_nat (Z.min (Z.of_nat (S a + b)) M) - S a)) by lia.
      cbn [seq map then_ yield fst snd app]. reflexivity.
Qed.

(** The number of sub-generators [split(n)] yields. *)
Lemma split_chunks (FP : PyFloat) (L : PyFloatLaws FP) (g : Generator)
    (c : Crs) (t : Transform) (step_size : Pair) (o oc R C n : Z) :
  variant g = Full step_size (o, oc) (R, C) ->
  0 < n <= 2 ^ 53 -> Z.abs R < 2 ^ 53 ->
  image_answers (image g) step_size c t ->
  exists m,
    0 <= m <= n
    /\ split FP g n =
       (map (chunk_at (image g) c t step_size o oc R C (ceil_div R n))
            (range m), None)
    /\ (forall k, 0 <= k < m ->
          0 < Z.min (ceil_div R n) (R - (o + k * ceil_div R n)))
    /\ (forall k, 0 <= k < m - 1 ->
          Z.min (ceil_div R n) (R - (o + k * ceil_div R n)) = ceil_div R n)
    /\ (m = 0 <-> R <= 0 \/ R <= o).
Proof.
  intros Hv Hn HR Himg. set (cs := ceil_div R n).
  assert (Hdiv : ceil_truediv FP (fst (R, C)) n = Ok cs).
  { apply (ceil_truediv_exact FP L); cbn [fst]; lia. }
  rewrite (split_chunk_size FP g _ _ _ n cs Hv Hdiv).
  pose proof (ceil_div_bounds R n ltac:(lia)) as Hcs. fold cs in Hcs.
  destruct (Z.leb_spec R 0) as [HR0|HR0].
  - exists 0. split; [lia|]. split.
    + apply split_jobs_none. intros job _. cbn [fst]. nia.
    + repeat split; intros; lia.
  - assert (Hpos : 0 < cs) by nia.
    pose proof (ceil_div_bounds (R - o) cs Hpos) as HM.
    set (M := ceil_div (R - o) cs) in *.
    exists (Z.max 0 (Z.min n M)). split; [lia|]. split.
    + unfold range at 1.
      rewrite (split_jobs_chunks FP g c t step_size o oc R C cs M Himg
                 Hpos HM).
      unfold range.
      replace (Z.to_nat (Z.min (Z.of_nat (0 + Z.to_nat n)) M) - 0)%nat
        with (Z.to_nat (Z.max 0 (Z.min n M))) by lia.
      reflexivity.
    + split; [intros k Hk; nia|]. split; [intros k Hk; nia|].
      split; [intros Hm; right; nia|intros [?|?]; nia].
Qed.

(** X8: whatever the row offset [o], [split(n)] for positive [n] yields
    at most [n] sub-generators, all unloaded and on the parent's image,
    step size, column offset and column count, with the image's
    coordinate system and its transform scaled by the step size; chunk
    [k] starts at row [o + k * ceil(R / n)], where the previous one ends;
    every chunk has at least one row and all but the last have
    [ceil(R / n)] rows; and there is none at all exactly when [R <= 0] or
    [R <= o].  The row count and the number of chunks have at most 53
    bits, so that the ceiling of their float quotient is the ceiling of
    the quotient, and the image answers the constructor of the
    sub-generators. *)
Theorem split_yields_contiguous_chunks :
  forall (FP : PyFloat) (g : Generator) (c : Crs) (t : Transform)
         (step_size : Pair) (o oc R C n : Z),
    PyFloatLaws FP ->
    variant g = Full step_size (o, oc) (R, C) ->
    0 < n <= 2 ^ 53 -> Z.abs R < 2 ^ 53 ->
    image_answers (image g) step_size c t ->
    exists m,
      0 <= m <= n
      /\ split FP g n =
         (map (chunk_at (image g) c t step_size o oc R C (ceil_div R n))
              (range m), None)
      /\ (forall k, 0 <= k < m ->
            0 < Z.min (ceil_div R n) (R - (o + k * ceil_div R n)))
      /\ (forall k, 0 <= k < m - 1 ->
            Z.min (ceil_div R n) (R - (o + k * ceil_div R n)) = ceil_div R n)
      /\ (m = 0 <-> R <= 0 \/ R <= o).
Proof. intros FP g c t step_size o oc R C n L. now apply split_chunks. Qed.

Lemma split_yields_contiguous_chunks_witness :
  exists m,
    0 <= m <= 3
    /\ split binary64 sweep5 3 =
       (map (chunk_at image10 "EPSG:4326"%string "scaled"%string
                      (2, 2) 0 0 5 5 (ceil_div 5 3)) (range m), None)
    /\ (forall k, 0 <= k < m ->
          0 < Z.min (ceil_div 5 3) (5 - (0 + k * ceil_div 5 3)))
    /\ (forall k, 0 <= k < m - 1 ->
          Z.min (ceil_div 5 3) (5 - (0 + k * ceil_div 5 3)) = ceil_div 5 3)
    /\ (m = 0 <-> 5 <= 0 \/ 5 <= 0).
Proof.
  apply (split_yields_contiguous_chunks binary64 sweep5
           "EPSG:4326"%string "scaled"%string (2, 2) 0 0 5 5 3
           binary64_laws eq_refl).
  - simpl; lia.
  - simpl; lia.
  - apply raster_image_answers.
Defined.

(** X16: with a zero row offset [split] does what the specification says: at
    most [n] sub-generators, chunk [k] starting at row [k * ceil(R / n)],
    every chunk but the last of [ceil(R / n)] rows, the chunks disjoint
    and covering exactly the rows [0, R).  The row count and the number
    of chunks have at most 53 bits, and the image answers the constructor
    of the sub-generators. *)
Theorem split_partitions_rows_at_offset_zero :
  forall (FP : PyFloat) (g : Generator) (c : Crs) (t : Transform)
         (step_size : Pair) (oc R C n : Z),
    PyFloatLaws FP ->
    variant g = Full step_size (0, oc) (R, C) ->
    0 < n <= 2 ^ 53 -> Z.abs R < 2 ^ 53 ->
    image_answers (image g) step_size c t ->
    let cs := ceil_div R n in
    exists m,
      0 <= m <= n
      /\ split FP g n =
         (map (chunk_generator (image g) c t step_size oc R C cs) (range m),
          None)
      /\ (forall k, 0 <= k < m ->
            0 < Z.min cs (R - k * cs)
            /\ k * cs + Z.min cs (R - k * cs) <= R)
      /\ (forall k, 0 <= k < m - 1 -> Z.min cs (R - k * cs) = cs)
      /\ (forall r, 0 <= r < R ->
            exists k, 0 <= k < m
                      /\ k * cs <= r < k * cs + Z.min cs (R - k * cs)).
Proof.
  intros FP g c t step_size oc R C n L Hv Hn HR Himg cs.
  assert (Hdiv : ceil_truediv FP (fst (R, C)) n = Ok cs).
  { apply (ceil_truediv_exact FP L); cbn [fst]; lia. }
  rewrite (split_chunk_size FP g _ _ _ n cs Hv Hdiv).
  pose proof (ceil_div_bounds R n ltac:(lia)) as Hcs. fold cs in Hcs.
  destruct (Z.leb_spec R 0) as [HR0|HR0].
  - exists 0. split; [lia|]. split.
    + apply split_jobs_none. intros job _. cbn [fst]. nia.
    + repeat split; intros; lia.
  - assert (Hpos : 0 < cs) by nia.
    pose proof (ceil_div_bounds R cs Hpos) as Hm.
    set (m := ceil_div R cs) in *.
    assert (Hmn : 0 < m <= n) by nia.
    exists m. split; [lia|]. split.
    + unfold range at 1.
      rewrite (split_jobs_chunks FP g c t step_size 0 oc R C cs m Himg Hpos)
        by lia.
      unfold range.
      replace (Z.to_nat (Z.min (Z.of_nat (0 + Z.to_nat n)) m) - 0)%nat
        with (Z.to_nat m) by lia.
      reflexivity.
    + split; [intros k Hk; nia|]. split; [intros k Hk; nia|].
      intros r Hr. exists (r / cs).
      pose proof (Z.div_mod r cs ltac:(lia)).
      pose proof (Z.mod_pos_bound r cs Hpos).
      assert (0 <= r / cs) by (apply Z.div_pos; lia).
      assert (r / cs < m) by nia.
      split; [lia|]. nia.
Qed.

Lemma split_partitions_rows_at_offset_zero_witness :
  exists m,
    0 <= m <= 2
    /\ split binary64 sweep5 2 =
       (map (chunk_generator image10 "EPSG:4326"%string "scaled"%string
                             (2, 2) 0 5 5 (ceil_div 5 2)) (range m),
        None)
    /\ (forall r, 0 <= r < 5 ->
          exists k, 0 <= k < m
                    /\ k * ceil_div 5 2 <= r
                       < k * ceil_div 5 2
                         + Z.min (ceil_div 5 2) (5 - k * ceil_div 5 2)).
Proof.
  destruct (split_partitions_rows_at_offset_zero binary64 sweep5
              "EPSG:4326"%string "scaled"%string (2, 2) 0 5 5 2
              binary64_laws eq_refl ltac:(simpl; lia) ltac:(simpl; lia)
              (raster_image_answers _ _ _))
    as (m & Hm & Hs & _ & _ & Hcov).
  exists m. auto.
Defined.

Lemma nth_error_map_range {A} (f : Z -> A) (m : Z) (k : nat) (x : A) :
  nth_error (map f (range m)) k = Some x ->
  x = f (Z.of_nat k) /\ 0 <= Z.of_nat k < m.
Proof.
  intros Hn.
  assert (Hk : (k < Z.to_nat m)%nat).
  { rewrite <- length_range, <- (length_map f).
    apply nth_error_Some. congruence. }
  rewrite nth_error_map, (nth_error_range m k Hk) in Hn. cbn in Hn.
  split; [congruence|lia].
Qed.

Lemma half_step_shift (i d s : Z) :
  ((2 * (d + i) + 1) * s) / 2 = d * s + ((2 * i + 1) * s) / 2.
Proof.
  replace ((2 * (d + i) + 1) * s) with ((2 * i + 1) * s + (d * s) * 2) by ring.
  rewrite Z.div_add by lia. ring.
Qed.

(** X9: splitting does not move the windows.  For a parent at a
    non-negative row offset, the window that sub-generator [k] returns at
    its cell [(i, j)] is, entry by entry, the window that the parent
    returns at cell [(k * ceil(R / n) + i, j)], both being loaded with the
    same layer and windows from an image that serves a raster and answers
    the constructor of the sub-generators.  The number of chunks and the
    window's extents have at most 53 bits and the parent's swept extent
    at most 52, so that the float expressions are exact. *)
Theorem split_windows_agree :
  forall (FP : PyFloat) (g g' sub sub' : Generator) (c : Crs)
         (t : Transform) (step_size : Pair) (o oc R C n : Z)
         (itype : string) (ws : list Window) (pix : string -> Z -> Z -> Z)
         (k : nat) (i j : Z) (w : Window),
    PyFloatLaws FP ->
    variant g = Full step_size (o, oc) (R, C) ->
    0 < n <= 2 ^ 53 -> 0 <= o ->
    steps_nonnegative g -> grid_exact g ->
    serves_raster (image g) pix ->
    image_answers (image g) step_size c t ->
    nth_error (fst (split FP g n)) k = Some sub ->
    load_image g itype ws = (g', None) ->
    load_image sub itype ws = (sub', None) ->
    In w ws -> 0 <= fst w -> 0 <= snd w -> window_exact w ->
    in_logical_shape sub (i, j) ->
    exists a b,
      __getitem__ FP sub' (i, j, w) = Ok a
      /\ __getitem__ FP g' (Z.of_nat k * ceil_div R n + i, j, w) = Ok b
      /\ same_array a b.
Proof.
  intros FP g g' sub sub' c t step_size o oc R C n itype ws pix k i j w
         L Hv Hn Ho Hsteps Hgrid Himg Hans Hnth Hload Hload' Hin Hw0 Hw1
         Hwe Hidx.
  assert (HR : 0 < R).
  { destruct (Z.ltb_spec 0 R) as [|HR]; [assumption|exfalso].
    assert (Hnil : fst (split FP g n) = []).
    { unfold split. rewrite Hv.
      destruct (ceil_truediv FP _ n) as [cs|]; [|reflexivity].
      rewrite split_jobs_none; [reflexivity|].
      intros job Hjob. apply in_range in Hjob. cbn [fst]. nia. }
    rewrite Hnil in Hnth. now destruct k. }
  pose proof Hgrid as Hgrid0. unfold grid_exact in Hgrid0.
  rewrite Hv in Hgrid0. cbn [fst snd] in Hgrid0.
  destruct Hgrid0 as [(G0 & G1 & G2) (G3 & G4 & G5)].
  pose proof Hsteps as Hsteps0. unfold steps_nonnegative in Hsteps0.
  rewrite Hv in Hsteps0. destruct Hsteps0 as [S0 S1].
  destruct (split_chunks FP L g c t step_size o oc R C n Hv Hn
              ltac:(lia) Hans)
    as (m & Hm & Hsplit & Hpos & _ & _).
  rewrite Hsplit in Hnth. cbn [fst] in Hnth.
  apply nth_error_map_range in Hnth. destruct Hnth as [-> Hk].
  pose proof (ceil_div_bounds R n ltac:(lia)) as Hcsb.
  set (cs := ceil_div R n) in *. set (d := Z.of_nat k * cs).
  unfold in_logical_shape in Hidx. cbn [variant chunk_at unloaded fst snd]
    in Hidx.
  specialize (Hpos (Z.of_nat k) Hk).
  assert (Hcs : 0 < cs <= R) by nia.
  assert (Hd : 0 <= d) by (unfold d; nia).
  fold d in Hidx, Hpos.
  assert (Hsteps' : steps_nonnegative
                      (chunk_at (image g) c t step_size o oc R C cs
                                (Z.of_nat k))).
  { unfold steps_nonnegative. cbn [variant chunk_at unloaded]. auto. }
  assert (Hgrid' : grid_exact
                     (chunk_at (image g) c t step_size o oc R C cs
                               (Z.of_nat k))).
  { unfold grid_exact. cbn [variant chunk_at unloaded fst snd]. fold d.
    split; [|auto]. split; [lia|]. split; [lia|]. nia. }
  destruct (loaded_window FP L
              (chunk_at (image g) c t step_size o oc R C cs (Z.of_nat k))
              sub' itype ws pix i j w Himg Hload' Hin Hw0 Hw1 Hwe
              Hsteps' Hgrid') as (a & Ha & Hsa & Hpa).
  { unfold in_logical_shape. cbn [variant chunk_at unloaded fst snd].
    exact Hidx. }
  destruct (loaded_window FP L g g' itype ws pix (d + i) j w Himg Hload Hin
              Hw0 Hw1 Hwe Hsteps Hgrid) as (b & Hb & Hsb & Hpb).
  { unfold in_logical_shape. rewrite Hv. cbn [fst snd]. lia. }
  exists a, b. split; [exact Ha|]. split; [exact Hb|].
  split; [congruence|]. intros r c0 Hr Hc. rewrite Hsa in Hr, Hc.
  rewrite (Hpa r c0 Hr Hc), (Hpb r c0 Hr Hc).
  unfold window_origin. rewrite Hv. cbn [variant chunk_at unloaded fst snd].
  fold d. rewrite half_step_shift. f_equal; ring.
Qed.

Lemma split_windows_agree_witness :
  exists a b,
    __getitem__ binary64
                (fst (load_image sweep5_rows_3_4 "rgb" [(4, 4)]))
                (1, 2, (4, 4)) = Ok a
    /\ __getitem__ binary64 (fst (load_image sweep5 "rgb" [(4, 4)]))
                   (Z.of_nat 1 * ceil_div 5 2 + 1, 2, (4, 4)) = Ok b
    /\ same_array a b.
Proof.
  apply (split_windows_agree binary64 sweep5 _ sweep5_rows_3_4 _
           "EPSG:4326"%string "scaled"%string (2, 2) 0 0 5 5 2
           "rgb" [(4, 4)] (fun _ r c => 100 * r + c) 1%nat 1 2 (4, 4)
           binary64_laws).
  - reflexivity.
  - simpl; lia.
  - lia.
  - unfold steps_nonnegative; simpl; lia.
  - unfold grid_exact; simpl; lia.
  - apply raster_image_serves.
  - apply raster_image_answers.
  - reflexivity.
  - reflexivity.
  - reflexivity.
  - now left.
  - simpl; lia.
  - simpl; lia.
  - apply window_exact_small; simpl; lia.
  - unfold in_logical_shape; simpl; lia.
Defined.

(** ** What [argwhere] finds *)

Lemma in_combine_seq {A} (xs : list A) (a : nat) (k : Z) (x : A) :
  In (k, x) (combine (map Z.of_nat (seq a (List.length xs))) xs) <->
  exists n, k = Z.of_nat (a + n) /\ nth_error xs n = Some x.
Proof.
  revert a. induction xs as [|y ys IH]; intros a; cbn [List.length seq map combine].
  - split; [intros []|]. intros (n & _ & Hn). now destruct n.
  - cbn [In]. rewrite IH. split.
    + intros [[= <- <-]|(n & -> & Hn)].
      * exists 0%nat. split; [f_equal; lia|reflexivity].
      * exists (S n). split; [f_equal; lia|exact Hn].
    + intros ([|n] & -> & Hn).
      * left. cbn in Hn. injection Hn as ->. do 2 f_equal. lia.
      * right. exists n. split; [f_equal; lia|exact Hn].
Qed.

Lemma in_enumerate {A} (xs : list A) (k : Z) (x : A) :
  In (k, x) (enumerate xs) <-> 0 <= k /\ nth_error xs (Z.to_nat k) = Some x.
Proof.
  unfold enumerate, range, len. rewrite Nat2Z.id, in_combine_seq. split.
  - intros (n & -> & Hn). cbn [Nat.add]. rewrite Nat2Z.id. split; [lia|exact Hn].
  - intros [Hk Hn]. exists (Z.to_nat k). split; [cbn [Nat.add]; lia|exact Hn].
Qed.

Lemma in_argwhere (a : list (list Z)) (i j : Z) :
  In (i, j) (argwhere a) <->
  exists row v,
    0 <= i /\ 0 <= j
    /\ nth_error a (Z.to_nat i) = Some row
    /\ nth_error row (Z.to_nat j) = Some v
    /\ v <> 0.
Proof.
  unfold argwhere. rewrite in_flat_map. split.
  - intros ([i' row] & Hrow & Hin). cbn [fst snd] in Hin.
    apply in_flat_map in Hin. destruct Hin as ([j' v] & Hv & Hin).
    cbn [fst snd] in Hin.
    destruct (Z.eqb_spec v 0); [destruct Hin|].
    destruct Hin as [[= <- <-]|[]].
    apply in_enumerate in Hrow. apply in_enumerate in Hv.
    exists row, v. tauto.
  - intros (row & v & Hi & Hj & Hrow & Hv & Hnz).
    exists (i, row). split; [apply in_enumerate; auto|].
    cbn [fst snd]. apply in_flat_map. exists (j, v).
    split; [apply in_enumerate; auto|]. cbn [fst snd].
    destruct (Z.eqb_spec v 0); [contradiction|now left].
Qed.

(** The positions [argwhere] finds in a filled mask are exactly the
    truthy ones: masked-out entries count as zero. *)
Lemma in_argwhere_filled (mask : Mask) (i j : Z) :
  In (i, j) (argwhere (filled mask 0)) <-> truthy_at mask i j.
Proof.
  rewrite in_argwhere. unfold truthy_at, filled. split.
  - intros (row' & v & Hi & Hj & Hrow & Hv & Hnz).
    rewrite nth_error_map in Hrow.
    destruct (nth_error mask (Z.to_nat i)) as [row|] eqn:Hm; [|discriminate].
    cbn in Hrow. injection Hrow as <-. rewrite nth_error_map in Hv.
    destruct (nth_error row (Z.to_nat j)) as [[v'|]|] eqn:Hr; cbn in Hv;
      try discriminate; injection Hv as <-.
    + exists row, v'. auto.
    + contradiction.
  - intros (row & v & Hi & Hj & Hrow & Hv & Hnz).
    exists (map (fun e => match e with Some v => v | None => 0 end) row), v.
    repeat (split; [assumption|]). split.
    + rewrite nth_error_map, Hrow. reflexivity.
    + split; [|exact Hnz]. rewrite nth_error_map, Hv. reflexivity.
Qed.

Lemma list_getitem_in {A} (xs : list A) (k : Z) (x : A) :
  list_getitem xs k = Ok x -> In x xs.
Proof.
  unfold list_getitem.
  destruct (_ <? 0); [discriminate|].
  destruct (nth_error xs _) eqn:Hn; [|discriminate].
  intros [= <-]. eapply nth_error_In, Hn.
Qed.

Lemma list_getitem_nonneg {A} (xs : list A) (k : Z) (x : A) :
  0 <= k -> list_getitem xs k = Ok x -> nth_error xs (Z.to_nat k) = Some x.
Proof.
  intros Hk. unfold list_getitem.
  destruct (Z.ltb_spec k 0); [lia|].
  destruct (Z.ltb_spec k 0); [lia|].
  destruct (nth_error xs _); [|discriminate]. congruence.
Qed.

Section Draws.

Context (R : RandomStateAPI) (L : RandomStateLaws R).

Lemma sample_loop_draws_in_masks (masks : list Mask) (p : option (list Q))
    (K : Z) :
  forall (fuel : nat) (sample : Z) (rs np : rstate R) ds e,
    sample_loop R (fun ij truth => yield (ij, truth)) masks p K
                fuel sample rs np = Some (ds, e) ->
    Forall (draw_in_masks masks) ds.
Proof.
  induction fuel as [|fuel IH]; intros sample rs np ds e;
    cbn [sample_loop]; destruct (sample <? K);
    try discriminate; try (intros [= <- <-]; constructor).
  destruct (choice R rs (len masks) p) as [[truth rs']|] eqn:Hch;
    [|intros [= <- <-]; constructor].
  pose proof (choice_range R L _ _ _ _ _ Hch) as Htr.
  destruct (list_getitem masks truth) as [mask|] eqn:Hmask;
    [|intros [= <- <-]; constructor].
  destruct (choice R np _ None) as [[k np']|];
    [|intros [= <- <-]; constructor].
  destruct (list_getitem _ k) as [[i j]|] eqn:Hij;
    [|intros [= <- <-]; constructor].
  unfold yield.
  destruct (sample_loop R _ masks p K fuel (sample + 1) rs' np')
    as [[ds' e']|] eqn:Hrec; [|discriminate].
  cbn [option_map then_ fst snd]. intros [= <- <-].
  constructor; [|eapply IH, Hrec].
  exists mask. cbn [fst snd]. split; [exact Htr|].
  split; [apply list_getitem_nonneg; [lia|exact Hmask]|].
  apply in_argwhere_filled. eapply list_getitem_in, Hij.
Qed.

(** The loop with another observer of the draws: what it yields is what
    the observer makes of each draw, in order. *)
Lemma sample_loop_observed {X} (emit : Pair -> Z -> Trace X)
    (f : Pair * Z -> list X) (masks : list Mask) (p : option (list Q))
    (K : Z) :
  (forall ij truth, emit ij truth = (f (ij, truth), None)) ->
  forall (fuel : nat) (sample : Z) (rs np : rstate R),
    sample_loop R emit masks p K fuel sample rs np
    = option_map (fun t => (flat_map f (fst t), snd t))
        (sample_loop R (fun ij truth => yield (ij, truth)) masks p K
                     fuel sample rs np).
Proof.
  intros Hemit. induction fuel as [|fuel IH]; intros sample rs np;
    cbn [sample_loop]; destruct (sample <? K); try reflexivity.
  destruct (choice R rs (len masks) p) as [[truth rs']|]; [|reflexivity].
  destruct (list_getitem masks truth) as [mask|]; [|reflexivity].
  destruct (choice R np _ None) as [[k np']|]; [|reflexivity].
  destruct (list_getitem _ k) as [ij|]; [|reflexivity].
  rewrite Hemit, IH. unfold yield.
  destruct (sample_loop R _ masks p K fuel (sample + 1) rs' np')
    as [[ds' e']|]; [|reflexivity].
  reflexivity.
Qed.

End Draws.

(** X10: every draw of the sampling iterator is a class index within the
    mask list together with a position at which that class's mask is
    truthy (present and non-zero), whether the run ends normally or in an
    exception. *)
Theorem draws_lie_in_masks :
  forall (R : RandomStateAPI) (fuel : nat) (g : Generator) (world : World R)
         (masks : list Mask) (p : option (list Q)) (samples seed : option Z)
         (ds : list (Pair * Z)) (e : option PyError),
    RandomStateLaws R ->
    variant g = RandomSample masks p samples seed ->
    sample_draws R fuel g world = Some (ds, e) ->
    Forall (draw_in_masks masks) ds.
Proof.
  intros R fuel g world masks p samples seed ds e L Hv.
  unfold sample_draws, sampling. rewrite Hv.
  destruct (_image_cache g); [|intros [= <- <-]; constructor].
  destruct (match seed with Some s => RandomState R s
                       | None => Ok (os_entropy world) end);
    [|intros [= <- <-]; constructor].
  destruct samples; [|intros [= <- <-]; constructor].
  apply (sample_loop_draws_in_masks R L).
Qed.

Lemma draws_lie_in_masks_witness :
  Forall (draw_in_masks [two_positions]) [((0, 1), 0)].
Proof.
  apply (draws_lie_in_masks lcg 1 (sampler (Some 1) (Some 0))
           (mk_World lcg 1 0) [two_positions] None (Some 1) (Some 0)
           [((0, 1), 0)] None lcg_laws eq_refl eq_refl).
Defined.

(** X11: what the sampling iterator yields is, for each draw in order,
    the windows of the generator at the drawn position, in the stored
    order, each paired with the drawn class; an exception that ends the
    draws ends the iteration after the items of the draws before it.  The
    window extents have at most 53 bits, so that halving them in floats
    is exact. *)
Theorem sampling_yields_windows_of_draws :
  forall (FP : PyFloat) (R : RandomStateAPI) (fuel : nat) (g : Generator)
         (world : World R)
         (pad : Pair) (cache : ndarray) (ws : list Window),
    PyFloatLaws FP ->
    _padding g = Some pad -> _image_cache g = Some cache ->
    _windows g = Some ws -> Forall window_exact ws ->
    RandomSampleGenerator_iter FP R fuel g world
    = option_map
        (fun t =>
           (flat_map (fun d =>
              map (fun w => (item_at FP g (fst (fst d)) (snd (fst d)) w,
                             snd d))
                  ws) (fst t), snd t))
        (sample_draws R fuel g world).
Proof.
  intros FP R fuel g world pad cache ws LF Hp Hc Hw Hws.
  unfold RandomSampleGenerator_iter, sample_draws, sampling. rewrite Hc.
  destruct (variant g) as [|masks p samples seed|] eqn:Hv; try reflexivity.
  destruct (match seed with Some s => RandomState R s
                       | None => Ok (os_entropy world) end);
    [|reflexivity].
  destruct samples as [K|]; [|reflexivity].
  apply sample_loop_observed. intros ij truth. unfold yield_windows.
  rewrite Hw. apply for_each_yield_map. intros w Hin. cbn [fst snd].
  rewrite (getitem_item_at FP LF g pad cache _ _ w Hp Hc); [reflexivity|].
  apply (slices_exact_sampling g _ w _ _ _ _ Hv).
  rewrite Forall_forall in Hws. now apply Hws.
Qed.

Lemma sampling_yields_windows_of_draws_witness :
  RandomSampleGenerator_iter binary64 lcg 1 (sampler (Some 1) (Some 0))
                             (mk_World lcg 1 0)
  = Some ([(item_at binary64 (sampler (Some 1) (Some 0)) 0 1 (4, 4), 0)],
          None).
Proof.
  rewrite (sampling_yields_windows_of_draws binary64 lcg 1
             (sampler (Some 1) (Some 0))
             (mk_World lcg 1 0) (4, 4)
             (mk_ndarray (18, 18) (fun r c => 100 * (-4 + r) + (-4 + c)))
             [(4, 4)] binary64_laws eq_refl eq_refl eq_refl).
  - reflexivity.
  - constructor; [|constructor]. apply window_exact_small; simpl; lia.
Defined.

(** X12: with nothing to draw from, a bounded run of at least one sample
    raises [ValueError] before it yields anything: when the mask list is
    empty, and when the class draw succeeds but no mask has a truthy
    position. *)
Theorem sampling_nothing_to_draw :
  forall (FP : PyFloat) (R : RandomStateAPI) (fuel : nat) (g : Generator)
         (world : World R)
         (masks : list Mask) (p : option (list Q)) (K : Z) (seed : option Z),
    RandomStateLaws R ->
    variant g = RandomSample masks p (Some K) seed ->
    _image_cache g <> None ->
    (forall s, seed = Some s -> exists st, RandomState R s = Ok st) ->
    0 < K -> (1 <= fuel)%nat ->
    masks = []
    \/ ((forall st, exists k st', choice R st (len masks) p = Ok (k, st'))
        /\ forall mask, In mask masks -> argwhere (filled mask 0) = []) ->
    RandomSampleGenerator_iter FP R fuel g world = Some (raising ValueError).
Proof.
  intros FP R fuel g world masks p K seed L Hv Hc Hseed HK Hfuel Hcase.
  unfold RandomSampleGenerator_iter, sampling. rewrite Hv.
  destruct (_image_cache g); [|congruence].
  assert (Hst : exists st, match seed with
                           | Some s => RandomState R s
                           | None => Ok (os_entropy world)
                           end = Ok st).
  { destruct seed as [s|]; [now apply Hseed|eauto]. }
  destruct Hst as (st & ->).
  destruct fuel as [|fuel]; [lia|]. cbn [sample_loop].
  destruct (Z.ltb_spec 0 K); [|lia].
  destruct Hcase as [->|[Hclass Hdeg]].
  - now rewrite (choice_empty R L) by (cbn; lia).
  - destruct (Hclass st) as (truth & st' & Hch). rewrite Hch.
    destruct (list_getitem masks truth) as [mask|] eqn:Hmask.
    + rewrite (Hdeg mask (list_getitem_in _ _ _ Hmask)).
      now rewrite (choice_empty R L) by (cbn; lia).
    + pose proof (choice_range R L _ _ _ _ _ Hch) as Htr.
      destruct (list_getitem_in_range masks truth Htr). congruence.
Qed.

Lemma sampling_nothing_to_draw_witness :
  RandomSampleGenerator_iter binary64 lcg 5
    (fst (load_image
            (sampling10 [[[Some 0; None]]] None (Some 3) (Some 0))
            "rgb" [(4, 4)]))
    (mk_World lcg 7 11)
  = Some ([], Some ValueError).
Proof.
  apply (sampling_nothing_to_draw binary64 lcg 5
           (fst (load_image
                   (sampling10 [[[Some 0; None]]] None (Some 3) (Some 0))
                   "rgb" [(4, 4)]))
           (mk_World lcg 7 11)
           [[[Some 0; None]]] None 3 (Some 0) lcg_laws eq_refl).
  - discriminate.
  - intros s [= <-]. exists 0. reflexivity.
  - lia.
  - lia.
  - right. split.
    + intros st. cbn. eauto.
    + intros mask [<-|[]]. reflexivity.
Defined.

Lemma bounded_sampling_count_witness :
  exists items,
    RandomSampleGenerator_iter binary64 lcg 3 (sampler (Some 3) (Some 0))
                               (mk_World lcg 7 11) = Some (items, None)
    /\ len items = 3 * len [(4, 4)].
Proof.
  apply (bounded_sampling_count binary64 lcg
           (sampling10 [two_positions] None (Some 3) (Some 0))
           _ "rgb" [(4, 4)] [two_positions] None 3 (Some 0)
           (mk_World lcg 7 11) 3%nat binary64_laws lcg_laws
           eq_refl eq_refl).
  - constructor; [|constructor]. apply window_exact_small; simpl; lia.
  - lia.
  - intros s [= <-]. exists 0. reflexivity.
  - intros st. cbn. eauto.
  - intros mask [<-|[]]. discriminate.
  - lia.
Defined.

Lemma seeded_classes_reproducible_witness :
  classes (sample_draws lcg 2 (sampler (Some 2) (Some 0)) (mk_World lcg 0 0))
  = classes (sample_draws lcg 2 (sampler (Some 2) (Some 0))
                          (mk_World lcg 1 5)).
Proof.
  apply (seeded_classes_reproducible lcg 2 (sampler (Some 2) (Some 0))
           [two_positions] None (Some 2) 0 0 1 0 5 lcg_laws eq_refl).
Defined.

(** ** Constructing a sweep generator *)

(** The two outcomes of the constructor on an image that answers it, with
    extents and steps that doubles hold exactly. *)
Lemma FullGenerator_init_cases (FP : PyFloat) (L : PyFloatLaws FP)
    (img : Image) (step_size offset : Pair) (shape : ShapeArg)
    (c : Crs) (t : Transform) :
  image_answers img step_size c t ->
  double_exact (fst (img_shape img)) -> double_exact (snd (img_shape img)) ->
  double_exact (fst step_size) -> double_exact (snd step_size) ->
  (truthy shape = false /\ (fst step_size = 0 \/ snd step_size = 0)
   /\ FullGenerator_init FP img step_size offset shape
      = Raise ZeroDivisionError)
  \/ (~ (truthy shape = false /\ (fst step_size = 0 \/ snd step_size = 0))
      /\ exists s',
          FullGenerator_init FP img step_size offset shape
          = Ok (unloaded img c t (Full step_size offset s'))
          /\ forall s, shape = ShapePair s -> s' = s).
Proof.
  intros (Hc & (t0 & Ht0) & Ht) E0 E1 S0 S1.
  assert (Hfalsy : forall sh, truthy sh = false ->
            FullGenerator_init FP img step_size offset sh
            = (r <- ceil_truediv FP (fst (img_shape img)) (fst step_size) ;;
               c' <- ceil_truediv FP (snd (img_shape img)) (snd step_size) ;;
               Ok (unloaded img c t (Full step_size offset (r, c'))))).
  { intros sh Hsh. unfold FullGenerator_init, Generator_init.
    rewrite Hc, Ht0. cbn [bind axis crs unloaded].
    destruct sh; try discriminate;
      destruct (ceil_truediv FP (fst _) _); cbn [bind]; try reflexivity;
      destruct (ceil_truediv FP (snd _) _); cbn [bind]; try reflexivity;
      now rewrite Ht. }
  destruct (truthy shape) eqn:Hsh.
  - right. split; [intros [? _]; discriminate|].
    destruct shape as [| |s]; try discriminate.
    exists s. split; [|now intros ? [= <-]].
    unfold FullGenerator_init, Generator_init.
    rewrite Hc, Ht0. cbn [bind]. now rewrite Ht.
  - rewrite (Hfalsy shape Hsh).
    destruct (Z.eq_dec (fst step_size) 0) as [Z0|Z0].
    { left. split; [reflexivity|]. split; [now left|].
      unfold ceil_truediv at 1. now rewrite Z0. }
    destruct (ceil_truediv_succeeds FP L _ _ Z0 E0 S0) as (r & ->).
    cbn [bind].
    destruct (Z.eq_dec (snd step_size) 0) as [Z1|Z1].
    { left. split; [reflexivity|]. split; [now right|].
      unfold ceil_truediv. now rewrite Z1. }
    destruct (ceil_truediv_succeeds FP L _ _ Z1 E1 S1) as (c' & ->).
    cbn [bind]. right. split; [intros [_ [?|?]]; contradiction|].
    exists (r, c'). split; [reflexivity|].
    intros s ->. discriminate.
Qed.

(** X13: on an image that answers the constructor, with extents and steps
    that doubles hold exactly, [FullGenerator] raises on construction
    exactly when the shape is left out (or falsy) and a step is zero, and
    then with [ZeroDivisionError]; an explicit shape is stored as given,
    whatever the steps, with the image's coordinate system and the
    transform the image scales by the step size. *)
Theorem FullGenerator_init_raises_iff :
  forall (FP : PyFloat) (img : Image) (step_size offset : Pair)
         (shape : ShapeArg) (c : Crs) (t : Transform),
    PyFloatLaws FP ->
    image_answers img step_size c t ->
    double_exact (fst (img_shape img)) ->
    double_exact (snd (img_shape img)) ->
    double_exact (fst step_size) -> double_exact (snd step_size) ->
    ((exists e, FullGenerator_init FP img step_size offset shape = Raise e)
     <-> truthy shape = false /\ (fst step_size = 0 \/ snd step_size = 0))
    /\ (forall e, FullGenerator_init FP img step_size offset shape = Raise e ->
                  e = ZeroDivisionError)
    /\ (forall s g, shape = ShapePair s ->
                    FullGenerator_init FP img step_size offset shape = Ok g ->
                    variant g = Full step_size offset s
                    /\ image g = img /\ _image_cache g = None
                    /\ crs g = c /\ transform g = t).
Proof.
  intros FP img step_size offset shape c t L Hans E0 E1 S0 S1.
  destruct (FullGenerator_init_cases FP L img step_size offset shape c t
              Hans E0 E1 S0 S1)
    as [(Hsh & Hz & ->)|(Hn & s' & -> & Hs')].
  - split; [split; eauto|]. split; [congruence|].
    intros s g ->. discriminate.
  - split; [split; [intros (e & He); discriminate|intros H; now apply Hn in H]|].
    split; [discriminate|].
    intros s g Hs [= <-]. rewrite (Hs' s Hs). cbn. auto.
Qed.

Lemma FullGenerator_init_raises_iff_witness :
  FullGenerator_init binary64 image10 (2, 0) (0, 0) ShapeEmpty
  = Raise ZeroDivisionError.
Proof.
  destruct (FullGenerator_init_raises_iff binary64 image10 (2, 0) (0, 0)
              ShapeEmpty "EPSG:4326"%string "scaled"%string
              binary64_laws (raster_image_answers _ _ _)
              ltac:(unfold double_exact; simpl; lia)
              ltac:(unfold double_exact; simpl; lia)
              ltac:(unfold double_exact; simpl; lia)
              ltac:(unfold double_exact; simpl; lia))
    as [[_ Hraise] [Herr _]].
  destruct Hraise as (e & He); [split; [reflexivity|now right]|].
  rewrite He. f_equal. now apply Herr.
Defined.

(** ** What [generate_random_point] returns *)

Section RandomPoint.

Context {F St : Type} (uniform : Uniform F St) (polygon : Polygon F).
Context (minx miny maxx maxy : F).

Lemma random_point_loop_contained :
  forall (fuel : nat) (counter : Z) (pnt r : option (F * F)) (st st' : St),
    counter <= 1 ->
    (1 <= counter -> exists q, pnt = Some q /\ contains polygon q = true) ->
    random_point_loop uniform polygon minx miny maxx maxy fuel counter pnt st = Some (r, st') ->
    exists q, r = Some q /\ contains polygon q = true.
Proof.
  induction fuel as [|fuel IH]; intros counter pnt r st st' Hc Hinv;
    cbn [random_point_loop]; destruct (Z.ltb_spec counter 1) as [Hlt|Hge];
    try discriminate; try (intros [= <- <-]; apply Hinv; lia).
  destruct (uniform st minx maxx) as [x st1].
  destruct (uniform st1 miny maxy) as [y st2].
  intros Hrun.
  destruct (contains polygon (x, y)) eqn:Hin.
  - apply (IH (counter + 1) (Some (x, y)) r st2 st'); [lia|eauto|exact Hrun].
  - apply (IH counter (Some (x, y)) r st2 st'); [lia|intros; lia|exact Hrun].
Qed.

Lemma random_point_loop_outside :
  (forall pnt, contains polygon pnt = false) ->
  forall (fuel : nat) (counter : Z) (pnt : option (F * F)) (st : St),
    counter < 1 ->
    random_point_loop uniform polygon minx miny maxx maxy fuel counter pnt st = None.
Proof.
  intros Hout. induction fuel as [|fuel IH]; intros counter pnt st Hc;
    cbn [random_point_loop]; destruct (Z.ltb_spec counter 1); try lia;
    [reflexivity|].
  destruct (uniform st minx maxx) as [x st1].
  destruct (uniform st1 miny maxy) as [y st2].
  rewrite Hout. now apply IH.
Qed.

Lemma random_point_loop_more_fuel :
  forall (fuel : nat) (counter : Z) (pnt : option (F * F)) (st : St) res,
    random_point_loop uniform polygon minx miny maxx maxy fuel counter pnt st = Some res ->
    random_point_loop uniform polygon minx miny maxx maxy (S fuel) counter
                      pnt st = Some res.
Proof.
  induction fuel as [|fuel IH]; intros counter pnt st res.
  - cbn [random_point_loop]. destruct (counter <? 1); [discriminate|auto].
  - intros H. cbn [random_point_loop] in H.
    change (random_point_loop uniform polygon minx miny maxx maxy
                              (S (S fuel)) counter pnt st)
      with (if counter <? 1 then
              let (x, st) := uniform st minx maxx in
              let (y, st) := uniform st miny maxy in
              let pnt := (x, y) in
              let counter :=
                if contains polygon pnt then counter + 1 else counter in
              random_point_loop uniform polygon minx miny maxx maxy
                                (S fuel) counter (Some pnt) st
            else Some (pnt, st)).
    destruct (counter <? 1); [|exact H].
      destruct (uniform st minx maxx) as [x st1].
    destruct (uniform st1 miny maxy) as [y st2].
    apply IH, H.
Qed.

End RandomPoint.

(** X14: whenever [generate_random_point] returns, it returns a point
    that the geometry contains, and more iterations do not change the
    answer. *)
Theorem generate_random_point_contained :
  forall (F St : Type) (uniform : Uniform F St) (polygon : Polygon F)
         (fuel : nat) (st st' : St) (r : option (F * F)),
    generate_random_point uniform polygon fuel st = Some (r, st') ->
    (exists q, r = Some q /\ contains polygon q = true)
    /\ generate_random_point uniform polygon (S fuel) st
       = Some (r, st').
Proof.
  intros F St uniform polygon fuel st st' r. unfold generate_random_point.
  destruct (bounds polygon) as [[[minx miny] maxx] maxy]. intros H. split.
  - apply (random_point_loop_contained uniform polygon minx miny maxx maxy
             fuel 0 None r st st'); [lia|intros; lia|exact H].
  - now apply random_point_loop_more_fuel.
Qed.

Lemma generate_random_point_contained_witness :
  generate_random_point walk unit_square 5 3 = Some (Some (1, 0), -1)
  /\ generate_random_point walk unit_square 6 3 = Some (Some (1, 0), -1).
Proof.
  split; [reflexivity|].
  apply (generate_random_point_contained Z Z walk unit_square 5 3 (-1)
           (Some (1, 0)) eq_refl).
Defined.

(** X15: on a geometry that contains no point, [generate_random_point]
    never returns: no number of iterations ends its loop. *)
Theorem generate_random_point_empty_geometry :
  forall (F St : Type) (uniform : Uniform F St) (polygon : Polygon F),
    (forall pnt, contains polygon pnt = false) ->
    forall (fuel : nat) (st : St),
      generate_random_point uniform polygon fuel st = None.
Proof.
  intros F St uniform polygon Hout fuel st. unfold generate_random_point.
  destruct (bounds polygon) as [[[minx miny] maxx] maxy].
  apply random_point_loop_outside; [exact Hout|lia].
Qed.

Lemma generate_random_point_empty_geometry_witness :
  generate_random_point walk (mk_Polygon Z (0, 0, 1, 1) (fun _ => false))
                        1000 3 = None.
Proof.
  apply (generate_random_point_empty_geometry Z Z walk
           (mk_Polygon Z (0, 0, 1, 1) (fun _ => false))).
  reflexivity.
Defined.
